(** * durablews: the reconnecting WebSocket client of [src/client.ts]

    A shallow embedding of [createClient] and of the closures it returns
    ([send], [connect], [isReady], the socket handlers installed by
    [reconnect], the [on*] subscription functions), followed by the
    properties of the specification that were checked against it.

    Conventions.
    - The closure variables of one client, together with the two stores
      of [../../stores] it reads, form a [State]; every closure is a
      function on [State].
    - What the host does on behalf of the client (frames handed to the
      socket, listener invocations, console output, sockets constructed)
      is appended to [trace], oldest first.
    - The host is a parameter: [JSON.parse], [JSON.stringify],
      [encodeURIComponent], the behaviour of the registered listeners and
      whether the socket buffer accepts a frame are [Variable]s of the
      section [Client].
    - Counts taken from the configuration ([maxQueueSize],
      [maxReconnectAttempts]) are natural numbers; the idle timeout is an
      integer and the reconnect delays are binary64 numbers, both in
      milliseconds. *)

From Stdlib Require Import String Ascii ZArith Lia Bool Arith List DecimalString.
Import ListNotations.

Set Warnings "-register-all".

(** ** Values *)

(** JavaScript values that travel as messages.  Only truthiness and the
    shape of the two objects the client builds itself are inspected, so
    numbers are kept integral. *)
Inductive JSON : Type :=
| JNull
| JBool (b : bool)
| JNum (n : Z)
| JStr (s : string)
| JArr (items : list JSON)
| JObj (fields : list (string * JSON)).

(** ToBoolean, as used by [message && ...]. *)
Definition truthy (v : JSON) : bool :=
  match v with
  | JNull => false
  | JBool b => b
  | JNum n => negb (n =? 0)%Z
  | JStr s => negb (s =? EmptyString)%string
  | JArr _ => true
  | JObj _ => true
  end.

(** [event.data] of a MessageEvent: a text frame or a binary one. *)
Inductive FrameData : Type :=
| Text (s : string)
| Blob
| ArrayBuffer.

(** ToString, applied by [JSON.parse] to its argument. *)
Definition toString (d : FrameData) : string :=
  match d with
  | Text s => s
  | Blob => "[object Blob]"
  | ArrayBuffer => "[object ArrayBuffer]"
  end.

(** [event?.data && typeof event?.data === "string"]; the other disjunct,
    [instanceof String], is false for every value a MessageEvent carries. *)
Definition is_nonempty_string (d : FrameData) : bool :=
  match d with
  | Text s => negb (s =? EmptyString)%string
  | _ => false
  end.

(** [WebSocket.readyState]. *)
Inductive ReadyState : Type := WS_CONNECTING | WS_OPEN | WS_CLOSING | WS_CLOSED.

Definition ReadyState_eqb (a b : ReadyState) : bool :=
  match a, b with
  | WS_CONNECTING, WS_CONNECTING | WS_OPEN, WS_OPEN
  | WS_CLOSING, WS_CLOSING | WS_CLOSED, WS_CLOSED => true
  | _, _ => false
  end.

(** Modelled from the spec: the enumeration [WebSocketClientState] of
    [./types], which the spec lists as Disconnected, Connecting, Connected,
    Closing, Closed. *)
Inductive WebSocketClientState : Type :=
  DISCONNECTED | CONNECTING | CONNECTED | CLOSING | CLOSED.

Inductive Exn : Type :=
| TypeError
| InvalidStateError
| Error (msg : string).

(** Result of a call that may throw. *)
Inductive outcome (A : Type) : Type :=
| Ok (a : A)
| Throw (e : Exn).
Arguments Ok {A} a.
Arguments Throw {A} e.

(** ** Listeners *)

(** A listener is a function identity; [indexOf] compares identities. *)
Definition Listener := nat.

Inductive Kind : Type := message | error | open | close | idle.

(** The argument a listener is called with. *)
Inductive Payload : Type :=
| PValue (v : JSON)          (* onMessage *)
| PEvent                     (* onError *)
| PClose (code : Z)          (* onClose: the CloseEvent *)
| PNothing.                  (* onOpen, onIdle *)

(** The five arrays of [const listeners = { ... }]. *)
Record Listeners : Type := mkListeners {
  l_message : list Listener;
  l_error : list Listener;
  l_open : list Listener;
  l_close : list Listener;
  l_idle : list Listener
}.

Definition no_listeners : Listeners := mkListeners [] [] [] [] [].

Definition registry (k : Kind) (ls : Listeners) : list Listener :=
  match k with
  | message => l_message ls
  | error => l_error ls
  | open => l_open ls
  | close => l_close ls
  | idle => l_idle ls
  end.

Definition set_registry (k : Kind) (arr : list Listener) (ls : Listeners)
  : Listeners :=
  match k with
  | message => mkListeners arr (l_error ls) (l_open ls) (l_close ls) (l_idle ls)
  | error => mkListeners (l_message ls) arr (l_open ls) (l_close ls) (l_idle ls)
  | open => mkListeners (l_message ls) (l_error ls) arr (l_close ls) (l_idle ls)
  | close => mkListeners (l_message ls) (l_error ls) (l_open ls) arr (l_idle ls)
  | idle => mkListeners (l_message ls) (l_error ls) (l_open ls) (l_close ls) arr
  end.

(** [Array.prototype.indexOf]: the first index holding [l]; [None] is -1. *)
Fixpoint indexOf (l : Listener) (arr : list Listener) : option nat :=
  match arr with
  | [] => None
  | x :: rest =>
      if Nat.eqb x l then Some 0
      else match indexOf l rest with
           | Some i => Some (S i)
           | None => None
           end
  end.

(** [arr.splice(index, 1)]. *)
Definition splice1 (index : nat) (arr : list Listener) : list Listener :=
  firstn index arr ++ skipn (S index) arr.

(** The closure returned by [onMessage], [onError], ...: it removes the
    first occurrence of [l] from the array of kind [k], if there is one. *)
Definition unsubscribe (k : Kind) (l : Listener) (ls : Listeners) : Listeners :=
  match indexOf l (registry k ls) with
  | Some index => set_registry k (splice1 index (registry k ls)) ls
  | None => ls
  end.

(** What a listener does to the client while it runs: it may call
    unsubscribe closures, and it may throw.  (Listeners that call back
    into [send] or [connect] are not covered.) *)
Inductive Action : Type :=
| Unsubscribe (k : Kind) (l : Listener)
| Raise.

(** The body of a listener: its actions in order, up to the first
    [Raise].  The result is the registries it leaves and whether it
    threw. *)
Fixpoint perform_all (acts : list Action) (ls : Listeners) : Listeners * bool :=
  match acts with
  | [] => (ls, false)
  | Unsubscribe k l :: rest => perform_all rest (unsubscribe k l ls)
  | Raise :: _ => (ls, true)
  end.

(** What one [forEach] over a registry did: the registries as the
    listeners left them, the listeners that were called, in call order,
    and whether one of them threw, which ends the pass. *)
Record Pass : Type := mkPass {
  registries : Listeners;
  called : list Listener;
  thrown : bool
}.

(** ** Observable effects *)

Inductive Effect : Type :=
| WsSend (frame : string)                       (* ws.send(frame) on an open socket *)
| Notify (k : Kind) (l : Listener) (p : Payload) (* listener(p) *)
| ConsoleError
| ConsoleLog
| NewWebSocket (url : string)
| WsClose.

(** ** Configuration and state *)

Record WebSocketClientConfig : Type := mkConfig {
  url : string;
  cfg_maxQueueSize : option nat;
  cfg_maxReconnectAttempts : option nat;
  cfg_idleTimeout : option Z;          (* milliseconds *)
  autoConnect : option bool
}.

(** [x || d] on an optional count: [undefined] and [0] are falsy. *)
Definition or_default (x : option nat) (d : nat) : nat :=
  match x with
  | Some (S n) => S n
  | _ => d
  end.

Inductive PromiseState : Type := Pending | Fulfilled | Rejected.

(** ** Numbers

    A delay in milliseconds as JavaScript computes it: a binary64 number,
    here a non-negative integer or [Infinity]. *)
Inductive Number : Type :=
| Finite (n : Z)
| Infinity.

(** A non-negative integer rounded to the 53-bit significand of binary64,
    to nearest, ties to even. *)
Definition round53 (z : Z) : Z :=
  let e := (Z.log2 z - 52)%Z in
  if (e <=? 0)%Z then z
  else
    let q := (z / 2 ^ e)%Z in
    let r := (z mod 2 ^ e)%Z in
    let half := (2 ^ (e - 1))%Z in
    let q' := if (r <? half)%Z then q
              else if (half <? r)%Z then (q + 1)%Z
              else if Z.even q then q else (q + 1)%Z in
    (q' * 2 ^ e)%Z.

(** The binary64 number nearest to a non-negative integer; from
    [2^1024 - 2^970] on, halfway between the largest finite number and
    [2^1024], that is [Infinity]. *)
Definition binary64 (z : Z) : Number :=
  if (2 ^ 1024 - 2 ^ 970 <=? z)%Z then Infinity else Finite (round53 z).

(** [Math.pow(2, i)] for a count [i]. *)
Definition Math_pow2 (i : nat) : Number := binary64 (2 ^ Z.of_nat i).

(** [x * k] for a positive integer [k]. *)
Definition times (x : Number) (k : Z) : Number :=
  match x with
  | Finite n => binary64 (n * k)
  | Infinity => Infinity
  end.

(** A socket built by [reconnect]: its readiness, the [attempt] captured
    by the handlers installed on it, and the promises waiting on its
    [{ once: true }] "open" and "error" listeners. *)
Record Socket : Type := mkSocket {
  ws_url : string;
  readyState : ReadyState;
  attempt_of : nat;
  open_once : list nat;
  error_once : list nat
}.

Record State : Type := mkState {
  config : WebSocketClientConfig;
  token : option string;            (* $token *)
  messageQueue : list JSON;         (* $messageQueue *)
  ws : option Socket;
  listeners : Listeners;
  promises : list PromiseState;     (* promises handed out by isReady *)
  timers : list (Number * nat);     (* setTimeout(() => reconnect(a), ms) *)
  idleTimeout : option Z;           (* the pending idle timer *)
  trace : list Effect
}.

Definition set_queue (q : list JSON) (st : State) : State :=
  mkState (config st) (token st) q (ws st) (listeners st) (promises st)
          (timers st) (idleTimeout st) (trace st).

Definition set_ws (s : option Socket) (st : State) : State :=
  mkState (config st) (token st) (messageQueue st) s (listeners st)
          (promises st) (timers st) (idleTimeout st) (trace st).

Definition set_listeners (ls : Listeners) (st : State) : State :=
  mkState (config st) (token st) (messageQueue st) (ws st) ls (promises st)
          (timers st) (idleTimeout st) (trace st).

Definition set_promises (ps : list PromiseState) (st : State) : State :=
  mkState (config st) (token st) (messageQueue st) (ws st) (listeners st) ps
          (timers st) (idleTimeout st) (trace st).

Definition set_timers (ts : list (Number * nat)) (st : State) : State :=
  mkState (config st) (token st) (messageQueue st) (ws st) (listeners st)
          (promises st) ts (idleTimeout st) (trace st).

Definition set_idleTimeout (t : option Z) (st : State) : State :=
  mkState (config st) (token st) (messageQueue st) (ws st) (listeners st)
          (promises st) (timers st) t (trace st).

Definition emit (es : list Effect) (st : State) : State :=
  mkState (config st) (token st) (messageQueue st) (ws st) (listeners st)
          (promises st) (timers st) (idleTimeout st) (trace st ++ es).

Definition set_readyState (r : ReadyState) (s : Socket) : Socket :=
  mkSocket (ws_url s) r (attempt_of s) (open_once s) (error_once s).

(** [ws?.readyState === r]: false when there is no socket. *)
Definition readyState_is (r : ReadyState) (st : State) : bool :=
  match ws st with
  | Some s => ReadyState_eqb (readyState s) r
  | None => false
  end.

(** ** Constants computed once by createClient *)

(** [config.maxQueueSize || 10]. *)
Definition maxQueueSize (st : State) : nat :=
  or_default (cfg_maxQueueSize (config st)) 10.

(** [config.maxReconnectAttempts || 5]. *)
Definition maxReconnectAttempts (c : WebSocketClientConfig) : nat :=
  or_default (cfg_maxReconnectAttempts c) 5.

(** [Array.from({ length: n }, (_, i) => Math.pow(2, i) * 1000)]. *)
Definition reconnectTimeouts (c : WebSocketClientConfig) : list Number :=
  map (fun i => times (Math_pow2 i) 1000) (seq 0 (maxReconnectAttempts c)).

(** [config.idleTimeout || 5 * 60 * 1000]. *)
Definition idleTimeoutDuration (c : WebSocketClientConfig) : Z :=
  match cfg_idleTimeout c with
  | None | Some 0%Z => (5 * 60 * 1000)%Z
  | Some ms => ms
  end.

(** ** The outbound queue store *)

(** The three operations of [../../stores] on [$messageQueue] are not
    part of [client.ts]; the bound is applied by [send], as in the
    source. *)

(** Modelled from the spec: [$queuePush], missing from the sources;
    "push(msg) appends". *)
Definition queuePush (m : JSON) (st : State) : State :=
  set_queue (messageQueue st ++ [m]) st.

(** Modelled from the spec: [$queueShift], missing from the sources;
    "shift() removes and returns the oldest entry, or signals empty". *)
Definition queueShift (st : State) : option JSON * State :=
  match messageQueue st with
  | [] => (None, st)
  | m :: rest => (Some m, set_queue rest st)
  end.

(** Modelled from the spec: [$queueUnshift], missing from the sources;
    "unshift(msg) re-inserts an entry at the front". *)
Definition queueUnshift (m : JSON) (st : State) : State :=
  set_queue (m :: messageQueue st) st.

(** ** A concrete host

    One host, and a few states, on which the client is run in the
    examples that close this file. *)

(** The double quote character. *)
Definition dquote : ascii := ascii_of_nat 34.

Definition quote (s : string) : string :=
  (String dquote s ++ String dquote EmptyString)%string.

Fixpoint join (sep : string) (parts : list string) : string :=
  match parts with
  | [] => EmptyString
  | [x] => x
  | x :: rest => (x ++ sep ++ join sep rest)%string
  end.

(** A serializer for the sample messages (their strings need no
    escaping). *)
Fixpoint render (v : JSON) : string :=
  match v with
  | JNull => "null"
  | JBool true => "true"
  | JBool false => "false"
  | JNum n => NilZero.string_of_int (Z.to_int n)
  | JStr s => quote s
  | JArr items => ("[" ++ join "," (map render items) ++ "]")%string
  | JObj fields =>
      ("{" ++ join "," (map (fun kv => (quote (fst kv) ++ ":" ++ render (snd kv))%string)
                            fields)
           ++ "}")%string
  end.

(** The part of [JSON.parse] the sample frames need: the three literal
    names are parsed, and the empty text and the text [hello], which are
    not JSON, are rejected like every other text. *)
Definition parse_literal (s : string) : option JSON :=
  if (s =? "null")%string then Some JNull
  else if (s =? "true")%string then Some (JBool true)
  else if (s =? "false")%string then Some (JBool false)
  else None.

(** Tokens without reserved characters encode as themselves. *)
Definition encode_plain (s : string) : string := s.

(** A socket buffer that never fills up. *)
Definition roomy (history : list Effect) (frame : string) : bool := true.


(** Listeners that leave the client alone. *)
Definition inert (l : Listener) (p : Payload) : list Action := [].


(** Listeners of which [x] cancels the subscription of [y] of kind [k]
    when it is called. *)
Definition cancelling (k : Kind) (x y : Listener)
           (l : Listener) (p : Payload) : list Action :=
  if Nat.eqb l x then [Unsubscribe k y] else [].

(** Listeners of which [x] throws when it is given the value [true]. *)
Definition choking_on_true (x : Listener)
           (l : Listener) (p : Payload) : list Action :=
  match p with
  | PValue (JBool true) => if Nat.eqb l x then [Raise] else []
  | _ => []
  end.

(** Listeners of which [x] throws whatever it is given. *)
Definition always_choking (x : Listener)
           (l : Listener) (p : Payload) : list Action :=
  if Nat.eqb l x then [Raise] else [].

Definition default_config : WebSocketClientConfig :=
  mkConfig "wss://example.test/ws" None None None None.

(** A configuration that allows 1100 reconnect attempts. *)
Definition patient_config : WebSocketClientConfig :=
  mkConfig "wss://example.test/ws" None (Some 1100) None None.

(** The closure variables as createClient initialises them. *)
Definition initial_state (cfg : WebSocketClientConfig) (tok : option string)
           (queue : list JSON) : State :=
  mkState cfg tok queue None no_listeners [] [] (Some (idleTimeoutDuration cfg))
          [].

(** A client whose socket, built by [reconnect(0)], has readiness [r]. *)
Definition client_with_socket (r : ReadyState) (queue : list JSON) : State :=
  set_ws (Some (mkSocket "wss://example.test/ws?token=t0" r 0 [] []))
         (initial_state default_config (Some "t0"%string) queue).

Definition three_messages : list JSON :=
  [JObj [("n"%string, JNum 1)]; JStr "second"; JArr [JBool true]].

Definition eleven_messages : list JSON :=
  map (fun n => JNum (Z.of_nat n)) (seq 1 11).

(** ** The client *)

Section Client.

(** The host's [JSON.parse] ([None]: it throws a SyntaxError),
    [JSON.stringify] and [encodeURIComponent]. *)
Variable JSON_parse : string -> option JSON.
Variable JSON_stringify : JSON -> string.
Variable encodeURIComponent : string -> string.

(** Whether the socket can take one more frame, given what happened so
    far.  When it cannot, the user agent flags the socket as full and
    starts closing it. *)
Variable buffer_accepts : list Effect -> string -> bool.

(** What each registered listener does when called. *)
Variable react : Listener -> Payload -> list Action.

(** [WebSocket.prototype.send]: throws InvalidStateError while
    connecting, hands the frame to the transport when open, and
    discards it silently once closing or closed. *)
Definition ws_send (frame : string) (st : State) : outcome State :=
  match ws st with
  | None => Throw TypeError
  | Some s =>
      match readyState s with
      | WS_CONNECTING => Throw InvalidStateError
      | WS_OPEN =>
          let r := if buffer_accepts (trace st) frame
                   then WS_OPEN else WS_CLOSING in
          Ok (emit [WsSend frame] (set_ws (Some (set_readyState r s)) st))
      | WS_CLOSING | WS_CLOSED => Ok st
      end
  end.

(** [listeners[k].forEach((listener) => listener(p))].  [forEach] reads
    the length once, then visits the indices 0 .. len-1 of the live
    array, skipping an index that is no longer present.  A listener
    that throws ends the pass: the exception leaves [forEach] and the
    listeners behind it are not called. *)
Fixpoint forEach_from (remaining : nat) (k : Kind) (i : nat) (p : Payload)
         (ls : Listeners) : Pass :=
  match remaining with
  | 0 => mkPass ls [] false
  | S remaining' =>
      match nth_error (registry k ls) i with
      | Some l =>
          let (ls1, threw) := perform_all (react l p) ls in
          if threw then mkPass ls1 [l] true
          else
            let rest := forEach_from remaining' k (S i) p ls1 in
            mkPass (registries rest) (l :: called rest) (thrown rest)
      | None => forEach_from remaining' k (S i) p ls
      end
  end.

Definition forEach (k : Kind) (p : Payload) (ls : Listeners) : Pass :=
  forEach_from (length (registry k ls)) k 0 p ls.

(** A [forEach] over the client's own registry: the state it leaves,
    whether or not a listener threw. *)
Definition publish (k : Kind) (p : Payload) (st : State) : State :=
  let 'mkPass ls' notified _ := forEach k p (listeners st) in
  set_listeners ls' (emit (map (fun l => Notify k l p) notified) st).

(** Whether that [forEach] ends with an exception. *)
Definition publish_throws (k : Kind) (p : Payload) (st : State) : bool :=
  thrown (forEach k p (listeners st)).

(** [reconnect(attempt)]: a fresh socket, with the token read from the
    store at construction time. *)
Definition reconnect (attempt : nat) (st : State) : State :=
  let t := match token st with Some t => t | None => EmptyString end in
  let u := (url (config st) ++ "?token=" ++ encodeURIComponent t)%string in
  emit [NewWebSocket u]
       (set_ws (Some (mkSocket u WS_CONNECTING attempt [] [])) st).

(** How the [while] loop of [ws.onopen] was left. *)
Inductive LoopExit : Type := Finished | Break.

(** The body of the [try]: write the message, or throw. *)
Definition try_write (m : option JSON) (st : State) : outcome State :=
  match m with
  | Some v =>
      if truthy v && readyState_is WS_OPEN st
      then ws_send (JSON_stringify v) st
      else Throw (Error "Message not sent due to WebSocket not being in OPEN state")
  | None =>
      Throw (Error "Message not sent due to WebSocket not being in OPEN state")
  end.

(** The [while ($messageQueue.get().length > 0)] loop of [ws.onopen];
    [iterations] bounds the number of times the body runs. *)
Fixpoint drain_loop (iterations : nat) (st : State) : State * LoopExit :=
  match iterations with
  | 0 => (st, Finished)
  | S iterations' =>
      if 0 <? length (messageQueue st) then
        let (m, st1) := queueShift st in
        match try_write m st1 with
        | Ok st2 => drain_loop iterations' st2
        | Throw _ =>
            let st2 := emit [ConsoleError] st1 in
            (match m with
             | Some v => queueUnshift v st2
             | None => st2
             end, Break)
        end
      else (st, Finished)
  end.

(** Every iteration that does not break removes one entry, so the
    length of the queue is enough iterations. *)
Definition drain (st : State) : State * LoopExit :=
  drain_loop (length (messageQueue st)) st.

(** [ws.onopen]: the loop, then [listeners.open.forEach(...)]. *)
Definition onopen (st : State) : State :=
  publish open PNothing (fst (drain st)).

(** [{ data: event?.data }]. *)
Definition wrapper (d : FrameData) : JSON :=
  JObj [("data"%string, JStr (toString d))].

(** The [catch] block of [ws.onmessage]: a non-empty string goes to the
    message-listeners wrapped, anything else is logged. *)
Definition onmessage_catch (data : FrameData) (st : State) : State :=
  if is_nonempty_string data
  then publish message (PValue (wrapper data)) st
  else emit [ConsoleLog; ConsoleLog; ConsoleError] st.

(** [ws.onmessage].  The [try] block holds [JSON.parse] and the
    [forEach] over the message-listeners, so the [catch] block runs when
    the frame does not parse and also when a listener throws on the
    parsed value. *)
Definition onmessage (data : FrameData) (st : State) : State :=
  match JSON_parse (toString data) with
  | Some v =>
      if publish_throws message (PValue v) st
      then onmessage_catch data (publish message (PValue v) st)
      else publish message (PValue v) st
  | None => onmessage_catch data st
  end.

(** Whether [ws.onmessage] ends with an exception: one thrown by a
    listener inside the [catch] block, which nothing catches. *)
Definition onmessage_throws (data : FrameData) (st : State) : bool :=
  let in_catch st1 :=
    is_nonempty_string data
    && publish_throws message (PValue (wrapper data)) st1 in
  match JSON_parse (toString data) with
  | Some v =>
      if publish_throws message (PValue v) st
      then in_catch (publish message (PValue v) st)
      else false
  | None => in_catch st
  end.

(** [reconnectTimeouts[attempt]]; out of range the array yields
    [undefined], which [setTimeout] takes as 0. *)
Definition timeout_at (attempt : nat) (st : State) : Number :=
  match nth_error (reconnectTimeouts (config st)) attempt with
  | Some ms => ms
  | None => Finite 0
  end.

(** The guard of [ws.onclose]. *)
Definition should_reconnect (attempt : nat) (code : Z) (st : State) : bool :=
  match ws st with
  | Some s =>
      negb (ReadyState_eqb (readyState s) WS_CLOSED)
      && (Z.of_nat attempt <? Z.of_nat (maxReconnectAttempts (config st)) - 1)%Z
      && negb (code =? 1000)%Z
  | None => false
  end.

(** [ws.onclose], for the handler installed by [reconnect(attempt)]. *)
Definition onclose (attempt : nat) (code : Z) (st : State) : State :=
  let st1 :=
    if should_reconnect attempt code st
    then set_timers (timers st ++ [(timeout_at attempt st, attempt + 1)]) st
    else st in
  publish close (PClose code) st1.

(** [ws.onerror]. *)
Definition onerror (st : State) : State :=
  publish error PEvent st.

(** [send(message)]: write when open; else queue, and drop the oldest
    entry past [maxQueueSize], unless the socket is closed. *)
Definition send (m : JSON) (st : State) : outcome State :=
  if readyState_is WS_OPEN st then
    ws_send (JSON_stringify m) st
  else if negb (readyState_is WS_CLOSED st) then
    let st1 := queuePush m st in
    if maxQueueSize st1 <? length (messageQueue st1)
    then Ok (snd (queueShift st1))
    else Ok st1
  else Ok st.

(** Successive calls of [send]. *)
Fixpoint send_all (ms : list JSON) (st : State) : outcome State :=
  match ms with
  | [] => Ok st
  | m :: rest =>
      match send m st with
      | Ok st1 => send_all rest st1
      | Throw e => Throw e
      end
  end.

(** [subscribe(channelName)]. *)
Definition subscribe (channelName : string) (st : State) : outcome State :=
  send (JObj [("action"%string, JStr "channel:subscribe");
              ("message"%string, JObj [("channelName"%string, JStr channelName)])])
       st.

(** [connect()]: [if (!ws || ws.readyState === WebSocket?.CLOSED) reconnect()]. *)
Definition connect (st : State) : State :=
  match ws st with
  | None => reconnect 0 st
  | Some s =>
      if ReadyState_eqb (readyState s) WS_CLOSED then reconnect 0 st else st
  end.

(** [ws.close()]: starts the closing handshake unless already closing
    or closed. *)
Definition disconnect (st : State) : State :=
  match ws st with
  | Some s =>
      match readyState s with
      | WS_CLOSING | WS_CLOSED => emit [WsClose] st
      | _ => emit [WsClose] (set_ws (Some (set_readyState WS_CLOSING s)) st)
      end
  | None => st
  end.

(** [isReady()]: the new promise's index in [promises], and the state
    with the promise created and its two once-listeners attached. *)
Definition isReady (st : State) : nat * State :=
  let p := length (promises st) in
  if readyState_is WS_OPEN st then
    (p, set_promises (promises st ++ [Fulfilled]) st)
  else
    let st1 := set_promises (promises st ++ [Pending]) st in
    match ws st1 with
    | Some s =>
        (p, set_ws (Some (mkSocket (ws_url s) (readyState s) (attempt_of s)
                                   (open_once s ++ [p]) (error_once s ++ [p])))
                   st1)
    | None => (p, st1)
    end.

(** [getStatus()]; the [default] branch of the [switch] is never taken,
    [readyState] having four values. *)
Definition getStatus (st : State) : WebSocketClientState :=
  match ws st with
  | None => DISCONNECTED
  | Some s =>
      match readyState s with
      | WS_CONNECTING => CONNECTING
      | WS_OPEN => CONNECTED
      | WS_CLOSING => CLOSING
      | WS_CLOSED => CLOSED
      end
  end.

(** The body shared by [onMessage], [onError], [onOpen], [onClose] and
    [onIdle]: push the listener; the closure they return is
    [unsubscribe k listener]. *)
Definition add_listener (k : Kind) (listener : Listener) (st : State) : State :=
  set_listeners
    (set_registry k (registry k (listeners st) ++ [listener]) (listeners st))
    st.

Definition onMessage (listener : Listener) (st : State) : State :=
  add_listener message listener st.

Definition onError (listener : Listener) (st : State) : State :=
  add_listener error listener st.

Definition onOpen (listener : Listener) (st : State) : State :=
  add_listener open listener st.

Definition onClose (listener : Listener) (st : State) : State :=
  add_listener close listener st.

Definition onIdle (listener : Listener) (st : State) : State :=
  add_listener idle listener st.

(** [resetIdleTimer()]: the pending idle timer is replaced by a new one. *)
Definition resetIdleTimer (st : State) : State :=
  set_idleTimeout (Some (idleTimeoutDuration (config st))) st.

(** The idle timer expires. *)
Definition onidle (st : State) : State :=
  publish idle PNothing (set_idleTimeout None st).

(** *** Socket events

    The host delivers "open" and "error" first to the handler that
    [reconnect] installed, then to the once-listeners [isReady] added,
    which settle their promises and are removed. *)

(** [resolve()] or [reject(e)] on promise [p]: a settled promise stays
    as it is. *)
Fixpoint settle (v : PromiseState) (p : nat) (ps : list PromiseState)
  : list PromiseState :=
  match ps, p with
  | [], _ => []
  | x :: rest, 0 => (match x with Pending => v | _ => x end) :: rest
  | x :: rest, S p' => x :: settle v p' rest
  end.

Definition settle_all (v : PromiseState) (waiting : list nat)
           (ps : list PromiseState) : list PromiseState :=
  fold_left (fun acc p => settle v p acc) waiting ps.

(** The socket opens. *)
Definition dispatch_open (st : State) : State :=
  match ws st with
  | None => st
  | Some s =>
      let st1 := onopen (set_ws (Some (set_readyState WS_OPEN s)) st) in
      match ws st1 with
      | Some s1 =>
          set_ws (Some (mkSocket (ws_url s1) (readyState s1) (attempt_of s1)
                                 [] (error_once s1)))
                 (set_promises
                    (settle_all Fulfilled (open_once s1) (promises st1)) st1)
      | None => st1
      end
  end.

(** The socket reports an error. *)
Definition dispatch_error (st : State) : State :=
  match ws st with
  | None => st
  | Some _ =>
      let st1 := onerror st in
      match ws st1 with
      | Some s1 =>
          set_ws (Some (mkSocket (ws_url s1) (readyState s1) (attempt_of s1)
                                 (open_once s1) []))
                 (set_promises
                    (settle_all Rejected (error_once s1) (promises st1)) st1)
      | None => st1
      end
  end.

(** The oldest reconnect timer expires. *)
Definition timer_fires (st : State) : State :=
  match timers st with
  | [] => st
  | (_, a) :: rest => reconnect a (set_timers rest st)
  end.

(** *** createClient

    The module variable [instance], the two stores, the clients built
    so far (a client's handle is its index) and what createClient asked
    of the host. *)

Inductive HostEffect : Type :=
| AddEventListener (event : string)
| IdleTimerSet (ms : Z)
| FetchToken.

Record World : Type := mkWorld {
  instance : option nat;
  token_store : option string;
  queue_store : list JSON;
  clients : list State;
  host_log : list HostEffect
}.

(** [!$token.get()]. *)
Definition token_missing (t : option string) : bool :=
  match t with
  | None => true
  | Some s => (s =? EmptyString)%string
  end.

(** An [async] call either returns, or is suspended at
    [await fetch(...)] until the token arrives. *)
Inductive Call : Type :=
| Returned (handle : nat)
| AwaitingToken (cfg : WebSocketClientConfig).

(** From the definition of [reconnect] to [return instance]. *)
Definition createClient_finish (cfg : WebSocketClientConfig) (w : World)
  : World * nat :=
  let st0 := initial_state cfg (token_store w) (queue_store w) in
  let st := match autoConnect cfg with
            | Some false => st0
            | _ => connect st0
            end in
  let handle := length (clients w) in
  (mkWorld (Some handle) (token_store w) (queue_store w)
           (clients w ++ [st]) (host_log w),
   handle).

(** The call, up to its first suspension. *)
Definition createClient (cfg : WebSocketClientConfig) (w : World)
  : World * Call :=
  match instance w with
  | Some handle => (w, Returned handle)
  | None =>
      let w1 := mkWorld (instance w) (token_store w) (queue_store w)
                        (clients w)
                        (host_log w ++
                           [AddEventListener "mousemove";
                            AddEventListener "keydown";
                            AddEventListener "mousedown";
                            IdleTimerSet (idleTimeoutDuration cfg)]) in
      if token_missing (token_store w1) then
        (mkWorld (instance w1) (token_store w1) (queue_store w1)
                 (clients w1) (host_log w1 ++ [FetchToken]),
         AwaitingToken cfg)
      else
        let (w2, handle) := createClient_finish cfg w1 in
        (w2, Returned handle)
  end.

(** The continuation of a suspended call: [$token.set(tokenData.token)]
    and the rest of the body. *)
Definition createClient_resume (cfg : WebSocketClientConfig)
           (fetched : string) (w : World) : World * nat :=
  createClient_finish cfg
    (mkWorld (instance w) (Some fetched) (queue_store w) (clients w)
             (host_log w)).

(** *** Vocabulary of the properties *)

(** The frame a message is written as. *)
Definition frame_of (v : JSON) : Effect := WsSend (JSON_stringify v).

(** What does not change when only the readiness of the socket does. *)
Definition same_wiring (a b : option Socket) : Prop :=
  match a, b with
  | Some s, Some s' =>
      ws_url s' = ws_url s /\ attempt_of s' = attempt_of s
      /\ open_once s' = open_once s /\ error_once s' = error_once s
  | None, None => True
  | _, _ => False
  end.

(** The state apart from the queue, the trace and the socket's
    readiness. *)
Definition same_rest (st st' : State) : Prop :=
  config st' = config st /\ token st' = token st
  /\ listeners st' = listeners st /\ promises st' = promises st
  /\ timers st' = timers st /\ idleTimeout st' = idleTimeout st
  /\ same_wiring (ws st) (ws st').

Definition exit_log (e : LoopExit) : list Effect :=
  match e with
  | Finished => []
  | Break => [ConsoleError]
  end.

(** The calls of one pass, as effects. *)
Definition notifications (k : Kind) (p : Payload) (called : list Listener)
  : list Effect :=
  map (fun l => Notify k l p) called.

(** [st'] is [st] after the listeners of kind [k] were notified of [p]:
    the trace grew by calls of registered listeners, and by one call of
    each, in registration order, when none of them does anything. *)
Definition published (k : Kind) (p : Payload) (st st' : State) : Prop :=
  exists called,
    trace st' = trace st ++ notifications k p called
    /\ incl called (registry k (listeners st))
    /\ ((forall l, In l (registry k (listeners st)) -> react l p = []) ->
        called = registry k (listeners st)).



Definition settled_as (v x : PromiseState) : PromiseState :=
  match x with
  | Pending => v
  | _ => x
  end.

Definition count_fetches (log : list HostEffect) : nat :=
  length (filter (fun e => match e with FetchToken => true | _ => false end)
                 log).

(** *** The client as a transition system

    What can happen to a client between two turns of the event loop: a
    call of one of the functions createClient returned, a user-activity
    or idle-timer callback, an event of the socket, a change of the
    socket's readiness by the host, or a reconnect timer. *)

Inductive Event : Type :=
| CallSend (m : JSON)
| CallSubscribe (channelName : string)
| CallConnect
| CallDisconnect
| CallIsReady
| CallOn (k : Kind) (l : Listener)           (* onMessage(l), onError(l), ... *)
| CallUnsubscribe (k : Kind) (l : Listener)  (* the closure [CallOn k l] returned *)
| Activity                                   (* mousemove, keydown, mousedown *)
| IdleExpires
| SocketOpens
| SocketErrors
| SocketReceives (data : FrameData)
| SocketCloses (attempt : nat) (code : Z)    (* of a socket built by reconnect(attempt) *)
| SocketBecomes (r : ReadyState)
| TimerFires (i : nat).                      (* the i-th pending reconnect timer *)

(** The state a call leaves behind; a call that throws leaves it as it
    was. *)
Definition state_after (r : outcome State) (st : State) : State :=
  match r with
  | Ok st' => st'
  | Throw _ => st
  end.

(** [setTimeout(() => reconnect(attempt + 1), ...)] comes due: the
    timer is gone and its callback runs. *)
Definition fire_timer (i : nat) (st : State) : State :=
  match nth_error (timers st) i with
  | Some (_, a) =>
      reconnect a (set_timers (firstn i (timers st) ++ skipn (S i) (timers st)) st)
  | None => st
  end.

Definition step (e : Event) (st : State) : State :=
  match e with
  | CallSend m => state_after (send m st) st
  | CallSubscribe channelName => state_after (subscribe channelName st) st
  | CallConnect => connect st
  | CallDisconnect => disconnect st
  | CallIsReady => snd (isReady st)
  | CallOn k l => add_listener k l st
  | CallUnsubscribe k l => set_listeners (unsubscribe k l (listeners st)) st
  | Activity => resetIdleTimer st
  | IdleExpires =>
      match idleTimeout st with
      | Some _ => onidle st
      | None => st
      end
  | SocketOpens => dispatch_open st
  | SocketErrors => dispatch_error st
  | SocketReceives data => onmessage data st
  | SocketCloses attempt code => onclose attempt code st
  | SocketBecomes r =>
      match ws st with
      | Some s => set_ws (Some (set_readyState r s)) st
      | None => st
      end
  | TimerFires i => fire_timer i st
  end.

(** The events of [es], oldest first. *)
Definition run (es : list Event) (st : State) : State :=
  fold_left (fun acc e => step e acc) es st.

(** Every pending reconnect timer was set for an attempt between 1 and
    [maxReconnectAttempts - 1], with the delay the schedule holds for the
    attempt before it, and the socket was built for an attempt below
    [maxReconnectAttempts]. *)
Definition within_schedule (st : State) : Prop :=
  Forall (fun t => 1 <= snd t < maxReconnectAttempts (config st)
                   /\ nth_error (reconnectTimeouts (config st)) (snd t - 1)
                      = Some (fst t))
         (timers st)
  /\ match ws st with
     | Some s => attempt_of s < maxReconnectAttempts (config st)
     | None => True
     end.

(** A promise that is no longer pending. *)
Definition settled (ps : list PromiseState) (p : nat) (v : PromiseState) : Prop :=
  nth_error ps p = Some v /\ v <> Pending.

(** The message [subscribe(channelName)] sends. *)
Definition subscribe_intent (channelName : string) : JSON :=
  JObj [("action"%string, JStr "channel:subscribe");
        ("message"%string, JObj [("channelName"%string, JStr channelName)])].

(** ** Properties *)

(** *** The backoff schedule *)

Lemma reconnectTimeouts_length (c : WebSocketClientConfig) :
  length (reconnectTimeouts c) = maxReconnectAttempts c.
Proof.
  unfold reconnectTimeouts. now rewrite length_map, length_seq.
Qed.

Lemma reconnectTimeouts_nth (c : WebSocketClientConfig) (i : nat) :
  i < maxReconnectAttempts c ->
  nth_error (reconnectTimeouts c) i = Some (times (Math_pow2 i) 1000).
Proof.
  intros Hi. unfold reconnectTimeouts.
  rewrite nth_error_map, nth_error_seq.
  destruct (Nat.ltb_spec i (maxReconnectAttempts c)) as [_ | Hge]; [ | lia ].
  reflexivity.
Qed.

Lemma or_default_positive (n d : nat) : 0 < n -> or_default (Some n) d = n.
Proof. destruct n; [ lia | reflexivity ]. Qed.

(** An integer with a significand of at most 53 bits is a binary64
    number. *)
Lemma round53_exact (m s : Z) :
  (0 < m < 2 ^ 53)%Z -> (0 <= s)%Z -> round53 (m * 2 ^ s) = (m * 2 ^ s)%Z.
Proof.
  intros Hm Hs. unfold round53.
  rewrite Z.log2_mul_pow2 by lia.
  assert (Hl : (Z.log2 m < 53)%Z) by (apply Z.log2_lt_pow2; lia).
  pose proof (Z.log2_nonneg m) as Hl0.
  destruct (Z.leb_spec (s + Z.log2 m - 52) 0) as [_ | He]; [ reflexivity | ].
  set (e := (s + Z.log2 m - 52)%Z) in *.
  assert (Hsplit : (m * 2 ^ s = m * 2 ^ (s - e) * 2 ^ e)%Z).
  { rewrite <- Z.mul_assoc, <- Z.pow_add_r by lia. f_equal. f_equal. lia. }
  assert (Hpos : (0 < 2 ^ e)%Z) by (apply Z.pow_pos_nonneg; lia).
  assert (Hhalf : (0 < 2 ^ (e - 1))%Z) by (apply Z.pow_pos_nonneg; lia).
  assert (Hmod : ((m * 2 ^ s) mod 2 ^ e = 0)%Z)
    by (rewrite Hsplit; apply Z.mod_mul; lia).
  assert (Hdiv : (m * 2 ^ s / 2 ^ e = m * 2 ^ (s - e))%Z)
    by (rewrite Hsplit; apply Z.div_mul; lia).
  rewrite Hmod, Hdiv.
  destruct (Z.ltb_spec 0 (2 ^ (e - 1))) as [_ | Hge]; [ | lia ].
  symmetry. exact Hsplit.
Qed.

Lemma Math_pow2_exact (i : nat) :
  i <= 1023 -> Math_pow2 i = Finite (2 ^ Z.of_nat i).
Proof.
  intros Hi. unfold Math_pow2, binary64.
  assert (Hle : (2 ^ Z.of_nat i <= 2 ^ 1023)%Z)
    by (apply Z.pow_le_mono_r; lia).
  destruct (Z.leb_spec (2 ^ 1024 - 2 ^ 970) (2 ^ Z.of_nat i)) as [Hbig | _].
  - exfalso. assert (2 ^ 1023 < 2 ^ 1024 - 2 ^ 970)%Z by reflexivity. lia.
  - f_equal. rewrite <- (Z.mul_1_l (2 ^ Z.of_nat i)).
    apply round53_exact; [ | lia ]. split; reflexivity.
Qed.

Lemma Math_pow2_overflow (i : nat) : 1024 <= i -> Math_pow2 i = Infinity.
Proof.
  intros Hi. unfold Math_pow2, binary64.
  assert (Hle : (2 ^ 1024 <= 2 ^ Z.of_nat i)%Z)
    by (apply Z.pow_le_mono_r; lia).
  destruct (Z.leb_spec (2 ^ 1024 - 2 ^ 970) (2 ^ Z.of_nat i)) as [_ | Hsmall];
    [ reflexivity | ].
  exfalso. assert (0 < 2 ^ 970)%Z by reflexivity. lia.
Qed.

(** [Math.pow(2, i) * 1000] is [2^i * 1000] up to [i = 1014]: the
    product is [125 * 2^(i+3)], a 7-bit significand, and it is below
    [2^1024]. *)
Lemma backoff_exact (i : nat) :
  i <= 1014 ->
  times (Math_pow2 i) 1000 = Finite (2 ^ Z.of_nat i * 1000).
Proof.
  intros Hi. rewrite Math_pow2_exact by lia. unfold times, binary64.
  assert (Hle : (2 ^ Z.of_nat i <= 2 ^ 1014)%Z)
    by (apply Z.pow_le_mono_r; lia).
  destruct (Z.leb_spec (2 ^ 1024 - 2 ^ 970) (2 ^ Z.of_nat i * 1000))
    as [Hbig | _].
  - exfalso.
    assert (2 ^ 1014 * 1000 < 2 ^ 1024 - 2 ^ 970)%Z by reflexivity. lia.
  - f_equal.
    replace (2 ^ Z.of_nat i * 1000)%Z with (125 * 2 ^ (Z.of_nat i + 3))%Z.
    + apply round53_exact; [ | lia ]. split; reflexivity.
    + rewrite Z.pow_add_r by lia. change (2 ^ 3)%Z with 8%Z. lia.
Qed.

(** From [i = 1015] on the product exceeds every finite binary64
    number. *)
Lemma backoff_overflow (i : nat) :
  1015 <= i -> times (Math_pow2 i) 1000 = Infinity.
Proof.
  intros Hi. destruct (Nat.le_gt_cases 1024 i) as [Hbig | Hsmall].
  - now rewrite Math_pow2_overflow.
  - rewrite Math_pow2_exact by lia. unfold times, binary64.
    assert (Hle : (2 ^ 1015 <= 2 ^ Z.of_nat i)%Z)
      by (apply Z.pow_le_mono_r; lia).
    destruct (Z.leb_spec (2 ^ 1024 - 2 ^ 970) (2 ^ Z.of_nat i * 1000))
      as [_ | Hlt]; [ reflexivity | ].
    exfalso.
    assert (2 ^ 1024 - 2 ^ 970 <= 2 ^ 1015 * 1000)%Z
      by (apply Z.leb_le; reflexivity).
    lia.
Qed.

(** C6, as binary64 arithmetic has it.  The schedule computed by
    createClient has one entry per attempt, the effective
    [maxReconnectAttempts] (the configured count, or 5 when it is absent
    or zero).  Entry [i] is [2^i * 1000] up to index 1014; from index 1015
    on, [Math.pow(2, i) * 1000] overflows and the entry is [Infinity].
    For five attempts the schedule is [1000; 2000; 4000; 8000; 16000]. *)
Theorem backoff_schedule (c : WebSocketClientConfig) :
  length (reconnectTimeouts c) = maxReconnectAttempts c
  /\ (forall i, i < maxReconnectAttempts c ->
                i <= 1014 ->
                nth_error (reconnectTimeouts c) i
                = Some (Finite (2 ^ Z.of_nat i * 1000)))
  /\ (forall i, i < maxReconnectAttempts c ->
                1015 <= i ->
                nth_error (reconnectTimeouts c) i = Some Infinity)
  /\ (forall n, 0 < n -> cfg_maxReconnectAttempts c = Some n ->
                maxReconnectAttempts c = n)
  /\ (cfg_maxReconnectAttempts c = None -> maxReconnectAttempts c = 5)
  /\ (maxReconnectAttempts c = 5 ->
      reconnectTimeouts c
      = [Finite 1000; Finite 2000; Finite 4000; Finite 8000; Finite 16000]).
Proof.
  split; [ apply reconnectTimeouts_length | ].
  split.
  { intros i Hi Hsmall. rewrite reconnectTimeouts_nth by exact Hi.
    now rewrite backoff_exact. }
  split.
  { intros i Hi Hbig. rewrite reconnectTimeouts_nth by exact Hi.
    now rewrite backoff_overflow. }
  split.
  { intros n Hn Hc. unfold maxReconnectAttempts. rewrite Hc.
    now apply or_default_positive. }
  split.
  { intros Hc. unfold maxReconnectAttempts. now rewrite Hc. }
  intros H5. unfold reconnectTimeouts. rewrite H5. reflexivity.
Qed.

(** *** send *)

Lemma ReadyState_eqb_eq (a b : ReadyState) :
  ReadyState_eqb a b = true <-> a = b.
Proof. destruct a, b; simpl; split; congruence. Qed.

Lemma status_connected (st : State) :
  readyState_is WS_OPEN st = true <-> getStatus st = CONNECTED.
Proof.
  unfold readyState_is, getStatus.
  destruct (ws st) as [s | ]; [ | split; discriminate ].
  destruct (readyState s); simpl; split; congruence.
Qed.

Lemma status_closed (st : State) :
  readyState_is WS_CLOSED st = true <-> getStatus st = CLOSED.
Proof.
  unfold readyState_is, getStatus.
  destruct (ws st) as [s | ]; [ | split; discriminate ].
  destruct (readyState s); simpl; split; congruence.
Qed.

(** [send] on an open socket. *)
Lemma send_when_open (m : JSON) (st : State) :
  readyState_is WS_OPEN st = true ->
  exists st',
    send m st = Ok st'
    /\ trace st' = trace st ++ [WsSend (JSON_stringify m)]
    /\ messageQueue st' = messageQueue st
    /\ config st' = config st.
Proof.
  intros Ho. unfold send. rewrite Ho.
  unfold readyState_is in Ho. unfold ws_send.
  destruct (ws st) as [s | ]; [ | discriminate ].
  apply ReadyState_eqb_eq in Ho. rewrite Ho.
  eexists. split; [ reflexivity | ]. simpl. auto.
Qed.

(** [send] on a closed socket. *)
Lemma send_when_closed (m : JSON) (st : State) :
  readyState_is WS_CLOSED st = true -> send m st = Ok st.
Proof.
  intros Hc. unfold send. rewrite Hc.
  replace (readyState_is WS_OPEN st) with false; [ reflexivity | ].
  unfold readyState_is in *. destruct (ws st) as [s | ]; [ | reflexivity ].
  apply ReadyState_eqb_eq in Hc. now rewrite Hc.
Qed.

(** [send] while the client is neither Connected nor Closed. *)
Lemma send_buffers (m : JSON) (st : State) :
  readyState_is WS_OPEN st = false ->
  readyState_is WS_CLOSED st = false ->
  exists st',
    send m st = Ok st'
    /\ trace st' = trace st
    /\ ws st' = ws st
    /\ config st' = config st
    /\ messageQueue st'
       = (let q := messageQueue st ++ [m] in
          if maxQueueSize st <? length q then tl q else q).
Proof.
  intros Ho Hc. unfold send. rewrite Ho, Hc. simpl.
  unfold maxQueueSize, queueShift. simpl.
  destruct (_ <? _).
  - destruct (messageQueue st ++ [m]) eqn:Hq.
    + destruct (messageQueue st); discriminate.
    + eexists; split; [ reflexivity | ]; simpl; rewrite ?Hq; auto.
  - eexists; split; [ reflexivity | ]; simpl; auto.
Qed.

(** C1.  [send] never throws.  When the client is Connected the
    serialized message is handed to the socket at once and the queue is
    left alone; when it is Closed nothing changes at all; in the three
    other states the message is appended to the queue, and the oldest
    entry is dropped if the bound is exceeded. *)
Theorem send_by_status (m : JSON) (st : State) :
  exists st',
    send m st = Ok st'
    /\ match getStatus st with
       | CONNECTED =>
           trace st' = trace st ++ [WsSend (JSON_stringify m)]
           /\ messageQueue st' = messageQueue st
       | CLOSED => st' = st
       | DISCONNECTED | CONNECTING | CLOSING =>
           trace st' = trace st
           /\ ws st' = ws st
           /\ messageQueue st'
              = (let q := messageQueue st ++ [m] in
                 if maxQueueSize st <? length q then tl q else q)
       end.
Proof.
  pose proof (status_connected st) as Hopen.
  pose proof (status_closed st) as Hclosed.
  destruct (readyState_is WS_OPEN st) eqn:Ho.
  - destruct (send_when_open m st Ho) as (st' & Hs & Ht & Hq & _).
    exists st'. split; [ exact Hs | ].
    rewrite (proj1 Hopen eq_refl). auto.
  - destruct (readyState_is WS_CLOSED st) eqn:Hc.
    + exists st. split; [ now apply send_when_closed | ].
      now rewrite (proj1 Hclosed eq_refl).
    + destruct (send_buffers m st Ho Hc) as (st' & Hs & Ht & Hw & _ & Hq).
      exists st'. split; [ exact Hs | ].
      destruct (getStatus st); auto.
      * destruct Hopen as [_ Hopen]. now specialize (Hopen eq_refl).
      * destruct Hclosed as [_ Hclosed]. now specialize (Hclosed eq_refl).
Qed.

(** *** The bound on the queue *)

Lemma enqueue_length (q : list JSON) (m : JSON) (bound : nat) :
  length q <= bound ->
  length (let q' := q ++ [m] in if bound <? length q' then tl q' else q')
  <= bound.
Proof.
  intros Hle. cbv zeta.
  destruct (bound <? length (q ++ [m])) eqn:Hb.
  - destruct (q ++ [m]) as [ | x r] eqn:Hq; simpl; [ lia | ].
    apply (f_equal (@length JSON)) in Hq.
    rewrite length_app in Hq. simpl in Hq. lia.
  - now apply Nat.ltb_ge in Hb.
Qed.

Lemma send_queue_length (m : JSON) (st st' : State) :
  send m st = Ok st' ->
  length (messageQueue st) <= maxQueueSize st ->
  length (messageQueue st') <= maxQueueSize st' /\ config st' = config st.
Proof.
  intros H Hle. unfold maxQueueSize in *.
  destruct (readyState_is WS_OPEN st) eqn:Ho.
  - destruct (send_when_open m st Ho) as (st1 & Hs & _ & Hq & Hc).
    rewrite H in Hs. injection Hs as <-. rewrite Hq, Hc. auto.
  - destruct (readyState_is WS_CLOSED st) eqn:Hc.
    + rewrite (send_when_closed m st Hc) in H. injection H as <-. auto.
    + destruct (send_buffers m st Ho Hc) as (st1 & Hs & _ & _ & Hcf & Hq).
      rewrite H in Hs. injection Hs as <-. rewrite Hq, Hcf.
      split; [ now apply enqueue_length | reflexivity ].
Qed.

Lemma send_total (m : JSON) (st : State) : exists st', send m st = Ok st'.
Proof.
  unfold send, ws_send, readyState_is.
  destruct (ws st) as [s | ]; simpl.
  - destruct (readyState s); simpl; try (eexists; reflexivity);
      destruct (_ <? _); eexists; reflexivity.
  - destruct (_ <? _); eexists; reflexivity.
Qed.

Lemma send_all_total (ms : list JSON) :
  forall st, exists st', send_all ms st = Ok st'.
Proof.
  induction ms as [ | m ms IH]; intros st; simpl.
  - now exists st.
  - destruct (send_total m st) as [st1 ->]. apply IH.
Qed.

Lemma send_all_queue_length (ms : list JSON) :
  forall st st',
    send_all ms st = Ok st' ->
    length (messageQueue st) <= maxQueueSize st ->
    length (messageQueue st') <= maxQueueSize st' /\ config st' = config st.
Proof.
  induction ms as [ | m ms IH]; intros st st' H Hle; simpl in H.
  - injection H as <-. auto.
  - destruct (send m st) as [st1 | e] eqn:Hs; [ | discriminate ].
    destruct (send_queue_length _ _ _ Hs Hle) as [Hle1 Hc1].
    destruct (IH _ _ H Hle1) as [Hle' Hc']. split; congruence.
Qed.

Lemma enqueue_newest (q : list JSON) (m : JSON) (bound : nat) :
  length q <= bound ->
  (let q' := q ++ [m] in if bound <? length q' then tl q' else q')
  = skipn (length (q ++ [m]) - bound) (q ++ [m]).
Proof.
  intros Hle. cbv zeta. rewrite length_app. simpl.
  destruct (bound <? length q + 1) eqn:Hb.
  - apply Nat.ltb_lt in Hb.
    replace (length q + 1 - bound) with 1 by lia.
    now destruct (q ++ [m]).
  - apply Nat.ltb_ge in Hb.
    now replace (length q + 1 - bound) with 0 by lia.
Qed.

(** While the client is neither Connected nor Closed, sending [ms]
    leaves the newest [maxQueueSize] entries of the old queue followed
    by [ms], in order. *)
Lemma send_all_buffers (ms : list JSON) :
  forall st,
    readyState_is WS_OPEN st = false ->
    readyState_is WS_CLOSED st = false ->
    length (messageQueue st) <= maxQueueSize st ->
    exists st',
      send_all ms st = Ok st'
      /\ messageQueue st'
         = skipn (length (messageQueue st ++ ms) - maxQueueSize st)
                 (messageQueue st ++ ms).
Proof.
  induction ms as [ | m ms IH]; intros st Ho Hc Hle; simpl.
  - exists st. split; [ reflexivity | ].
    rewrite app_nil_r.
    now replace (length (messageQueue st) - maxQueueSize st) with 0 by lia.
  - destruct (send_buffers m st Ho Hc) as (st1 & Hs & _ & Hw & Hcf & Hq).
    rewrite Hs.
    assert (Ho1 : readyState_is WS_OPEN st1 = false)
      by (unfold readyState_is in *; now rewrite Hw).
    assert (Hc1 : readyState_is WS_CLOSED st1 = false)
      by (unfold readyState_is in *; now rewrite Hw).
    assert (Hb1 : maxQueueSize st1 = maxQueueSize st)
      by (unfold maxQueueSize; now rewrite Hcf).
    assert (Hle1 : length (messageQueue st1) <= maxQueueSize st1).
    { rewrite Hq, Hb1. now apply enqueue_length. }
    destruct (IH st1 Ho1 Hc1 Hle1) as (st' & Hs' & Hq').
    exists st'. split; [ exact Hs' | ].
    rewrite Hq', Hb1, Hq, enqueue_newest by exact Hle.
    set (bound := maxQueueSize st). fold bound in Hle.
    set (q := messageQueue st). fold q in Hle.
    set (d := length (q ++ [m]) - bound).
    assert (Hd : d <= length (q ++ [m])) by (subst d; lia).
    assert (Happ : skipn d (q ++ [m]) ++ ms = skipn d (q ++ m :: ms)).
    { change (m :: ms) with ([m] ++ ms). rewrite (app_assoc q [m] ms).
      rewrite (skipn_app d (q ++ [m]) ms).
      replace (d - length (q ++ [m])) with 0 by lia. reflexivity. }
    rewrite Happ, skipn_skipn. f_equal.
    rewrite length_skipn. subst d.
    rewrite !length_app. simpl. rewrite length_app in Hd. simpl in Hd. lia.
Qed.

(** *** Draining the queue when the socket opens *)

Lemma same_wiring_refl (a : option Socket) : same_wiring a a.
Proof. destruct a; simpl; auto. Qed.

Lemma same_wiring_trans (a b c : option Socket) :
  same_wiring a b -> same_wiring b c -> same_wiring a c.
Proof.
  destruct a, b, c; simpl; try tauto.
  intros (-> & -> & -> & ->) (-> & -> & -> & ->). auto.
Qed.

Lemma same_rest_refl (st : State) : same_rest st st.
Proof. unfold same_rest. repeat split. apply same_wiring_refl. Qed.

Lemma same_rest_trans (a b c : State) :
  same_rest a b -> same_rest b c -> same_rest a c.
Proof.
  unfold same_rest.
  intros (-> & -> & -> & -> & -> & -> & H1) (-> & -> & -> & -> & -> & -> & H2).
  repeat split. eapply same_wiring_trans; eauto.
Qed.

(** A write that does not throw wrote a truthy message to an open
    socket. *)
Lemma try_write_ok (m : option JSON) (st st' : State) :
  try_write m st = Ok st' ->
  exists v,
    m = Some v /\ truthy v = true /\ readyState_is WS_OPEN st = true
    /\ messageQueue st' = messageQueue st
    /\ trace st' = trace st ++ [frame_of v]
    /\ same_rest st st'.
Proof.
  unfold try_write. destruct m as [v | ]; [ | discriminate ].
  destruct (truthy v) eqn:Ht; simpl; [ | discriminate ].
  destruct (readyState_is WS_OPEN st) eqn:Ho; [ | discriminate ].
  unfold readyState_is in Ho. unfold ws_send.
  destruct (ws st) as [s | ] eqn:Hws; [ | discriminate ].
  apply ReadyState_eqb_eq in Ho. rewrite Ho.
  intros H. injection H as <-.
  exists v. repeat split; simpl; auto. now rewrite Hws.
Qed.

(** A write that throws leaves the state alone. *)
Lemma try_write_throw (v : JSON) (st : State) (e : Exn) :
  try_write (Some v) st = Throw e ->
  truthy v = false \/ readyState_is WS_OPEN st = false.
Proof.
  unfold try_write.
  destruct (truthy v); [ | now left ].
  destruct (readyState_is WS_OPEN st) eqn:Ho; [ | now right ].
  simpl. unfold ws_send. unfold readyState_is in Ho.
  destruct (ws st) as [s | ]; [ | discriminate ].
  apply ReadyState_eqb_eq in Ho. rewrite Ho. discriminate.
Qed.

Lemma drain_loop_nil (n : nat) (st : State) :
  messageQueue st = [] -> drain_loop n st = (st, Finished).
Proof. intros Hq. destruct n; simpl; [ | rewrite Hq ]; reflexivity. Qed.

Lemma drain_loop_cons (n : nat) (st : State) (v : JSON) (q : list JSON) :
  messageQueue st = v :: q ->
  drain_loop (S n) st
  = match try_write (Some v) (set_queue q st) with
    | Ok st2 => drain_loop n st2
    | Throw _ =>
        (queueUnshift v (emit [ConsoleError] (set_queue q st)), Break)
    end.
Proof.
  intros Hq. cbn [drain_loop]. unfold queueShift. rewrite Hq. reflexivity.
Qed.

(** The loop writes a prefix of the queue, in order, and leaves the
    rest; on [Break] the rest starts with the message whose write
    failed. *)
Lemma drain_loop_spec (n : nat) :
  forall st st' e,
    drain_loop n st = (st', e) ->
    exists written rest,
      messageQueue st = written ++ rest
      /\ messageQueue st' = rest
      /\ trace st' = trace st ++ map frame_of written ++ exit_log e
      /\ same_rest st st'
      /\ match e with
         | Finished => rest = [] \/ length written = n
         | Break => rest <> []
         end.
Proof.
  induction n as [ | n IH]; intros st st' e H.
  - simpl in H. injection H as <- <-. exists [], (messageQueue st).
    simpl. rewrite app_nil_r.
    repeat split; auto using same_rest_refl, same_wiring_refl.
  - destruct (messageQueue st) as [ | v q] eqn:Hq.
    + rewrite drain_loop_nil in H by exact Hq.
      injection H as <- <-. exists [], []. rewrite Hq. simpl.
      rewrite app_nil_r.
      repeat split; auto using same_rest_refl, same_wiring_refl.
    + rewrite (drain_loop_cons n st v q Hq) in H.
      destruct (try_write (Some v) (set_queue q st)) as [st2 | err] eqn:Hw.
      * apply try_write_ok in Hw.
        destruct Hw as (v' & Hv & _ & _ & Hq2 & Ht2 & Hr2).
        injection Hv as <-.
        destruct (IH _ _ _ H) as (written & rest & Hq' & Hrest & Ht & Hr & He).
        exists (v :: written), rest. simpl in Hq2, Ht2.
        split; [ simpl; congruence | ].
        split; [ exact Hrest | ].
        split.
        { rewrite Ht, Ht2. simpl. rewrite <- !app_assoc. reflexivity. }
        split.
        { eapply same_rest_trans; [ | exact Hr ].
          destruct Hr2 as (? & ? & ? & ? & ? & ? & ?).
          unfold same_rest. simpl in *. repeat split; auto. }
        destruct e; [ | exact He ].
        destruct He as [He | He]; [ now left | right; simpl; lia ].
      * injection H as <- <-. exists [], (v :: q). simpl.
        rewrite ?app_nil_r.
        repeat split; auto using same_wiring_refl; discriminate.
Qed.

(** What [drain] does; the length of the queue is enough iterations. *)
Lemma drain_spec (st st' : State) (e : LoopExit) :
  drain st = (st', e) ->
  exists written rest,
    messageQueue st = written ++ rest
    /\ messageQueue st' = rest
    /\ trace st' = trace st ++ map frame_of written ++ exit_log e
    /\ same_rest st st'
    /\ match e with
       | Finished => rest = []
       | Break => rest <> []
       end.
Proof.
  unfold drain. intros H.
  destruct (drain_loop_spec _ _ _ _ H) as (written & rest & Hq & Hr & Ht & Hs & He).
  exists written, rest. do 4 (split; [ assumption | ]).
  destruct e; [ | exact He ].
  destruct He as [He | He]; [ exact He | ].
  rewrite Hq, length_app in He.
  destruct rest; [ reflexivity | simpl in He; lia ].
Qed.

(** On an open socket whose buffer takes every frame, a queue of truthy
    messages is written to the end. *)
Lemma drain_loop_completes (n : nat) :
  forall st,
    (forall history frame, buffer_accepts history frame = true) ->
    readyState_is WS_OPEN st = true ->
    forallb truthy (messageQueue st) = true ->
    snd (drain_loop n st) = Finished.
Proof.
  induction n as [ | n IH]; intros st Hbuf Ho Ht; [ reflexivity | ].
  destruct (messageQueue st) as [ | v q] eqn:Hq.
  - now rewrite drain_loop_nil.
  - rewrite (drain_loop_cons n st v q Hq).
    simpl in Ht. apply andb_true_iff in Ht. destruct Ht as [Hv Hrest].
    unfold try_write. rewrite Hv.
    replace (readyState_is WS_OPEN (set_queue q st)) with true by exact (eq_sym Ho).
    simpl. unfold ws_send. simpl.
    unfold readyState_is in Ho.
    destruct (ws st) as [s | ]; [ | discriminate ].
    apply ReadyState_eqb_eq in Ho. rewrite Ho, Hbuf.
    apply IH; [ exact Hbuf | reflexivity | exact Hrest ].
Qed.

(** More iterations than the queue is long change nothing: the loop
    leaves by its own condition, not by the bound. *)
Lemma drain_loop_enough (n : nat) :
  forall st extra,
    length (messageQueue st) <= n ->
    drain_loop (n + extra) st = drain_loop n st.
Proof.
  induction n as [ | n IH]; intros st extra Hle.
  - destruct (messageQueue st) eqn:Hq; [ | simpl in Hle; lia ].
    now rewrite !drain_loop_nil.
  - destruct (messageQueue st) as [ | v q] eqn:Hq.
    + now rewrite !drain_loop_nil.
    + change (S n + extra) with (S (n + extra)).
      rewrite !(drain_loop_cons _ st v q Hq).
      destruct (try_write (Some v) (set_queue q st)) as [st2 | err] eqn:Hw;
        [ | reflexivity ].
      apply IH. apply try_write_ok in Hw.
      destruct Hw as (_ & _ & _ & _ & Hq2 & _). rewrite Hq2.
      simpl in *. lia.
Qed.

(** *** Publishing to listeners *)

Lemma registry_set_registry (k : Kind) (arr : list Listener) (ls : Listeners) :
  registry k (set_registry k arr ls) = arr.
Proof. now destruct k. Qed.

Lemma nth_error_skipn_cons (arr : list Listener) :
  forall i l, nth_error arr i = Some l -> skipn i arr = l :: skipn (S i) arr.
Proof.
  induction arr as [ | a arr IH]; intros [ | i] l H; simpl in *;
    try discriminate.
  - now injection H as ->.
  - now apply IH.
Qed.

Lemma nth_error_skipn_nil (arr : list Listener) (i : nat) :
  nth_error arr i = None -> skipn i arr = [].
Proof. intros H. apply skipn_all2. now apply nth_error_None. Qed.

(** A stretch of the pass in which no visited listener does anything
    calls the listeners at the visited indices, in order. *)
Lemma forEach_from_quiet (k : Kind) (p : Payload) (n : nat) :
  forall i ls,
    (forall l, In l (firstn n (skipn i (registry k ls))) -> react l p = []) ->
    forEach_from n k i p ls
    = mkPass ls (firstn n (skipn i (registry k ls))) false.
Proof.
  induction n as [ | n IH]; intros i ls Hq; simpl; [ reflexivity | ].
  destruct (nth_error (registry k ls) i) as [l | ] eqn:Hn.
  - rewrite (nth_error_skipn_cons _ _ _ Hn) in *. simpl in *.
    rewrite (Hq l) by now left. simpl.
    rewrite IH by (intros l' Hl'; apply Hq; now right).
    reflexivity.
  - rewrite (nth_error_skipn_nil _ _ Hn) in *.
    rewrite IH.
    + rewrite skipn_all2 by (apply nth_error_None in Hn; lia).
      now rewrite firstn_nil.
    + rewrite skipn_all2 by (apply nth_error_None in Hn; lia).
      rewrite firstn_nil. intros l [].
Qed.

(** When no registered listener does anything, the pass calls every
    one of them once, in registration order. *)
Lemma forEach_quiet (k : Kind) (p : Payload) (ls : Listeners) :
  (forall l, In l (registry k ls) -> react l p = []) ->
  forEach k p ls = mkPass ls (registry k ls) false.
Proof.
  intros Hq. unfold forEach.
  rewrite forEach_from_quiet; simpl; rewrite firstn_all; auto.
Qed.


Lemma indexOf_app (x : Listener) (pre rest : list Listener) :
  ~ In x pre -> indexOf x (pre ++ x :: rest) = Some (length pre).
Proof.
  induction pre as [ | a pre IH]; intros Hn; simpl.
  - now rewrite Nat.eqb_refl.
  - destruct (Nat.eqb_spec a x) as [-> | _].
    + exfalso. apply Hn. now left.
    + rewrite IH; [ reflexivity | ]. intros H. apply Hn. now right.
Qed.

Lemma splice1_app (x : Listener) (pre rest : list Listener) :
  splice1 (length pre) (pre ++ x :: rest) = pre ++ rest.
Proof.
  unfold splice1. induction pre as [ | a pre IH]; [ reflexivity | ].
  change (length (a :: pre)) with (S (length pre)).
  change ((a :: pre) ++ x :: rest) with (a :: (pre ++ x :: rest)).
  rewrite firstn_cons, skipn_cons, <- app_comm_cons, IH. reflexivity.
Qed.

Lemma splice1_incl (i : nat) (arr : list Listener) : incl (splice1 i arr) arr.
Proof.
  unfold splice1. intros l Hl. apply in_app_or in Hl.
  rewrite <- (firstn_skipn i arr). apply in_or_app.
  destruct Hl as [Hl | Hl]; [ now left | right ].
  rewrite <- (firstn_skipn 1 (skipn i arr)), skipn_skipn.
  apply in_or_app. right. now rewrite Nat.add_1_l.
Qed.

Lemma unsubscribe_incl (k k' : Kind) (l : Listener) (ls : Listeners) :
  incl (registry k' (unsubscribe k l ls)) (registry k' ls).
Proof.
  unfold unsubscribe.
  destruct (indexOf l (registry k ls)) as [i | ]; [ | apply incl_refl ].
  pose proof (splice1_incl i (registry k ls)) as H.
  destruct k, k'; simpl in *; auto using incl_refl.
Qed.

Lemma perform_all_incl (k : Kind) (acts : list Action) :
  forall ls, incl (registry k (fst (perform_all acts ls))) (registry k ls).
Proof.
  induction acts as [ | [k' l | ] acts IH]; intros ls; simpl.
  - apply incl_refl.
  - eapply incl_tran; [ apply IH | apply unsubscribe_incl ].
  - apply incl_refl.
Qed.



(** Listeners only unsubscribe or throw, so a pass calls none but
    listeners that were registered when it started, and leaves none but
    those. *)
Lemma forEach_from_incl (k : Kind) (p : Payload) (n : nat) :
  forall i ls,
    incl (called (forEach_from n k i p ls)) (registry k ls)
    /\ incl (registry k (registries (forEach_from n k i p ls))) (registry k ls).
Proof.
  induction n as [ | n IH]; intros i ls; simpl.
  - split; [ intros l [] | apply incl_refl ].
  - destruct (nth_error (registry k ls) i) as [l | ] eqn:Hn; [ | apply IH ].
    pose proof (perform_all_incl k (react l p) ls) as Hp.
    destruct (perform_all (react l p) ls) as [ls1 [ | ]]; simpl in *.
    + split; [ | exact Hp ].
      intros l' [<- | []]. eapply nth_error_In; eauto.
    + destruct (IH (S i) ls1) as [Hc Hr]. split.
      * intros l' [<- | Hl'].
        -- eapply nth_error_In; eauto.
        -- apply Hp, Hc, Hl'.
      * eapply incl_tran; eauto.
Qed.












(** [publish] touches the registries and the trace only; it calls
    listeners that were registered, and all of them, once and in
    registration order, when none of them does anything. *)
Lemma publish_spec (k : Kind) (p : Payload) (st : State) :
  exists called,
    trace (publish k p st) = trace st ++ notifications k p called
    /\ incl called (registry k (listeners st))
    /\ ((forall l, In l (registry k (listeners st)) -> react l p = []) ->
        called = registry k (listeners st)
        /\ listeners (publish k p st) = listeners st)
    /\ config (publish k p st) = config st
    /\ token (publish k p st) = token st
    /\ messageQueue (publish k p st) = messageQueue st
    /\ ws (publish k p st) = ws st
    /\ promises (publish k p st) = promises st
    /\ timers (publish k p st) = timers st
    /\ idleTimeout (publish k p st) = idleTimeout st.
Proof.
  unfold publish.
  pose proof (forEach_from_incl k p (length (registry k (listeners st))) 0
                                (listeners st)) as [Hincl _].
  pose proof (forEach_quiet k p (listeners st)) as Hquiet.
  unfold forEach in *.
  destruct (forEach_from _ k 0 p (listeners st)) as [ls' called0 t].
  exists called0. simpl in *.
  split; [ reflexivity | ].
  split; [ exact Hincl | ].
  split; [ | repeat split ].
  intros Hq. specialize (Hquiet Hq). injection Hquiet as -> -> _.
  split; reflexivity.
Qed.

Lemma publish_published (k : Kind) (p : Payload) (st : State) :
  published k p st (publish k p st).
Proof.
  destruct (publish_spec k p st) as (called & Ht & Hi & Hq & _).
  exists called. repeat split; auto. intros H. now apply Hq.
Qed.




(** C5.  A [send] never leaves the queue longer than [maxQueueSize] if
    it was not longer before, so it never is for a queue that started
    empty; and eleven messages sent to a client with [maxQueueSize] 10
    that is neither Connected nor Closed leave the last ten, in the
    order sent, the first one having been evicted. *)
Theorem outbound_queue_bound :
  (forall m st st',
      length (messageQueue st) <= maxQueueSize st ->
      send m st = Ok st' ->
      length (messageQueue st') <= maxQueueSize st')
  /\ (forall ms st,
         messageQueue st = [] ->
         exists st',
           send_all ms st = Ok st'
           /\ length (messageQueue st') <= maxQueueSize st')
  /\ (forall ms st,
         messageQueue st = [] ->
         maxQueueSize st = 10 ->
         length ms = 11 ->
         readyState_is WS_OPEN st = false ->
         readyState_is WS_CLOSED st = false ->
         exists st',
           send_all ms st = Ok st'
           /\ messageQueue st' = tl ms
           /\ length (messageQueue st') = 10).
Proof.
  split; [ | split ].
  - intros m st st' Hle Hs. now apply (send_queue_length m st st' Hs).
  - intros ms st Hq.
    destruct (send_all_total ms st) as [st' Hs]. exists st'.
    split; [ exact Hs | ].
    apply (send_all_queue_length ms st st' Hs). rewrite Hq. simpl. lia.
  - intros ms st Hq Hb Hlen Ho Hc.
    destruct (send_all_buffers ms st Ho Hc) as (st' & Hs & Hq').
    { rewrite Hq. simpl. lia. }
    exists st'. split; [ exact Hs | ].
    rewrite Hq', Hq, Hb. simpl app. rewrite Hlen.
    destruct ms as [ | m0 ms]; [ discriminate | ].
    simpl. split; [ reflexivity | ]. simpl in Hlen. lia.
Qed.






(** *** isReady *)

Lemma nth_error_settle (v : PromiseState) (ps : list PromiseState) :
  forall q p,
    nth_error (settle v q ps) p
    = if Nat.eqb p q then option_map (settled_as v) (nth_error ps p)
      else nth_error ps p.
Proof.
  induction ps as [ | x ps IH]; intros [ | q] [ | p]; simpl; auto.
  now destruct (Nat.eqb p q).
Qed.

Lemma settle_all_other (v : PromiseState) (p : nat) (waiting : list nat) :
  forall ps,
    ~ In p waiting ->
    nth_error (settle_all v waiting ps) p = nth_error ps p.
Proof.
  unfold settle_all.
  induction waiting as [ | q waiting IH]; intros ps Hn; simpl; auto.
  rewrite IH by (intros H; apply Hn; now right).
  rewrite nth_error_settle.
  destruct (Nat.eqb_spec p q) as [-> | _]; [ | reflexivity ].
  exfalso. apply Hn. now left.
Qed.

Lemma settle_all_settled (v x : PromiseState) (p : nat) (waiting : list nat) :
  forall ps,
    x <> Pending ->
    nth_error ps p = Some x ->
    nth_error (settle_all v waiting ps) p = Some x.
Proof.
  unfold settle_all.
  induction waiting as [ | q waiting IH]; intros ps Hx Hp; simpl; auto.
  apply IH; [ exact Hx | ].
  rewrite nth_error_settle, Hp.
  destruct (Nat.eqb p q); [ | reflexivity ].
  simpl. now destruct x.
Qed.

Lemma settle_all_pending (v : PromiseState) (p : nat) (waiting : list nat) :
  forall ps,
    v <> Pending ->
    In p waiting ->
    nth_error ps p = Some Pending ->
    nth_error (settle_all v waiting ps) p = Some v.
Proof.
  induction waiting as [ | q waiting IH]; intros ps Hv Hin Hp; [ destruct Hin | ].
  change (settle_all v (q :: waiting) ps)
    with (settle_all v waiting (settle v q ps)).
  destruct (Nat.eq_dec q p) as [-> | Hne].
  - apply settle_all_settled; [ exact Hv | ].
    now rewrite nth_error_settle, Nat.eqb_refl, Hp.
  - apply IH; [ exact Hv | | ].
    + destruct Hin as [Hin | Hin]; [ contradiction | exact Hin ].
    + rewrite nth_error_settle.
      destruct (Nat.eqb_spec p q) as [-> | _]; [ contradiction | exact Hp ].
Qed.

(** The handler [ws.onopen] leaves the promises and the once-listeners
    alone. *)
Lemma onopen_frame (st : State) :
  promises (onopen st) = promises st /\ same_wiring (ws st) (ws (onopen st)).
Proof.
  unfold onopen.
  destruct (drain st) as [st1 e] eqn:Hd.
  destruct (drain_spec st st1 e Hd)
    as (_ & _ & _ & _ & _ & (_ & _ & _ & Hp & _ & _ & Hw) & _).
  destruct (publish_spec open PNothing st1)
    as (_ & _ & _ & _ & _ & _ & _ & Hw' & Hp' & _).
  cbn [fst]. rewrite Hw', Hp'. auto.
Qed.

Lemma dispatch_open_spec (st : State) (s : Socket) :
  ws st = Some s ->
  exists s',
    ws (dispatch_open st) = Some s'
    /\ open_once s' = []
    /\ error_once s' = error_once s
    /\ promises (dispatch_open st)
       = settle_all Fulfilled (open_once s) (promises st).
Proof.
  intros Hws. unfold dispatch_open. rewrite Hws.
  destruct (onopen_frame (set_ws (Some (set_readyState WS_OPEN s)) st))
    as [Hp Hw].
  unfold same_wiring in Hw. cbn [ws set_ws] in Hw.
  destruct (ws (onopen _)) as [s1 | ]; [ | contradiction ].
  simpl in Hw. destruct Hw as (_ & _ & Ho & He).
  eexists. simpl. repeat split; auto. now rewrite Hp, Ho.
Qed.

Lemma dispatch_error_spec (st : State) (s : Socket) :
  ws st = Some s ->
  exists s',
    ws (dispatch_error st) = Some s'
    /\ open_once s' = open_once s
    /\ error_once s' = []
    /\ promises (dispatch_error st)
       = settle_all Rejected (error_once s) (promises st).
Proof.
  intros Hws. unfold dispatch_error, onerror. rewrite Hws.
  destruct (publish_spec error PEvent st)
    as (_ & _ & _ & _ & _ & _ & _ & Hw & Hp & _).
  rewrite Hw, Hp, Hws.
  eexists. simpl. repeat split; auto.
Qed.

(** What [isReady] returns and leaves behind. *)
Lemma isReady_spec (st : State) :
  fst (isReady st) = length (promises st)
  /\ match ws st with
     | Some s =>
         if ReadyState_eqb (readyState s) WS_OPEN then
           promises (snd (isReady st)) = promises st ++ [Fulfilled]
           /\ ws (snd (isReady st)) = ws st
         else
           promises (snd (isReady st)) = promises st ++ [Pending]
           /\ exists s',
               ws (snd (isReady st)) = Some s'
               /\ readyState s' = readyState s
               /\ open_once s' = open_once s ++ [length (promises st)]
               /\ error_once s' = error_once s ++ [length (promises st)]
     | None =>
         promises (snd (isReady st)) = promises st ++ [Pending]
         /\ ws (snd (isReady st)) = None
     end.
Proof.
  unfold isReady, readyState_is.
  destruct (ws st) as [s | ] eqn:Hws; simpl.
  - destruct (ReadyState_eqb (readyState s) WS_OPEN); simpl.
    + auto.
    + rewrite Hws. simpl. repeat split. eexists. simpl. auto.
  - rewrite Hws. simpl. auto.
Qed.

Lemma nth_error_last (ps : list PromiseState) (x : PromiseState) :
  nth_error (ps ++ [x]) (length ps) = Some x.
Proof. now rewrite nth_error_app2, Nat.sub_diag by lia. Qed.

Lemma reconnect_spec (attempt : nat) (st : State) :
  promises (reconnect attempt st) = promises st
  /\ exists s,
      ws (reconnect attempt st) = Some s
      /\ readyState s = WS_CONNECTING
      /\ attempt_of s = attempt
      /\ open_once s = [] /\ error_once s = [].
Proof. unfold reconnect. simpl. split; [ reflexivity | ]. eexists. simpl. auto. Qed.

(** A promise with a once-listener on each event of the current socket
    is settled by whichever of "open" and "error" comes first, and stays
    settled. *)
Lemma waiting_promise_settles (st : State) (s : Socket) (p : nat) :
  ws st = Some s ->
  In p (open_once s) ->
  In p (error_once s) ->
  nth_error (promises st) p = Some Pending ->
  nth_error (promises (dispatch_open st)) p = Some Fulfilled
  /\ nth_error (promises (dispatch_error st)) p = Some Rejected
  /\ nth_error (promises (dispatch_error (dispatch_open st))) p = Some Fulfilled
  /\ nth_error (promises (dispatch_open (dispatch_error st))) p = Some Rejected.
Proof.
  intros Hws Ho He Hp.
  destruct (dispatch_open_spec st s Hws) as (s1 & Hws1 & _ & _ & Hp1).
  destruct (dispatch_error_spec st s Hws) as (s2 & Hws2 & _ & _ & Hp2).
  assert (H1 : nth_error (promises (dispatch_open st)) p = Some Fulfilled).
  { rewrite Hp1. apply settle_all_pending; auto. discriminate. }
  assert (H2 : nth_error (promises (dispatch_error st)) p = Some Rejected).
  { rewrite Hp2. apply settle_all_pending; auto. discriminate. }
  repeat split; auto.
  - destruct (dispatch_error_spec _ s1 Hws1) as (_ & _ & _ & _ & ->).
    apply settle_all_settled; auto. discriminate.
  - destruct (dispatch_open_spec _ s2 Hws2) as (_ & _ & _ & _ & ->).
    apply settle_all_settled; auto. discriminate.
Qed.

(** A promise on which no once-listener of the new socket waits stays
    pending when [connect] builds a socket and that socket opens or
    errors. *)
Lemma stale_promise_stays_pending (st : State) (p : nat) :
  getStatus st = DISCONNECTED \/ getStatus st = CLOSED ->
  nth_error (promises st) p = Some Pending ->
  nth_error (promises (dispatch_open (connect st))) p = Some Pending
  /\ nth_error (promises (dispatch_error (connect st))) p = Some Pending
  /\ getStatus (dispatch_open (connect st)) <> DISCONNECTED.
Proof.
  intros Hst Hp.
  assert (Hc : connect st = reconnect 0 st).
  { unfold connect, getStatus in *.
    destruct (ws st) as [s | ]; [ | reflexivity ].
    destruct (readyState s); simpl; try reflexivity;
      destruct Hst; discriminate. }
  rewrite Hc.
  destruct (reconnect_spec 0 st) as (Hpr & s & Hws & _ & _ & Ho & He).
  destruct (dispatch_open_spec _ s Hws) as (s1 & Hws1 & _ & _ & ->).
  destruct (dispatch_error_spec _ s Hws) as (s2 & Hws2 & _ & _ & ->).
  rewrite Ho, He, Hpr. simpl. repeat split; auto.
  unfold getStatus. rewrite Hws1. destruct (readyState s1); discriminate.
Qed.

(** C9, as [isReady] has it.  The promise is already resolved when the
    client is Connected.  When there is a socket that is Connecting or
    Closing, the promise is pending, the next "open" of that socket
    resolves it and the next "error" rejects it, whichever comes first,
    once and for all.  When there is no socket, or a Closed one, the
    promise is pending and nothing a later [connect] sets up settles it:
    it stays pending when the new socket opens or errors. *)
Theorem isReady_settles (st : State) :
  let p := fst (isReady st) in
  let st1 := snd (isReady st) in
  match getStatus st with
  | CONNECTED => nth_error (promises st1) p = Some Fulfilled
  | CONNECTING | CLOSING =>
      nth_error (promises st1) p = Some Pending
      /\ nth_error (promises (dispatch_open st1)) p = Some Fulfilled
      /\ nth_error (promises (dispatch_error st1)) p = Some Rejected
      /\ nth_error (promises (dispatch_error (dispatch_open st1))) p
         = Some Fulfilled
      /\ nth_error (promises (dispatch_open (dispatch_error st1))) p
         = Some Rejected
  | DISCONNECTED | CLOSED =>
      nth_error (promises st1) p = Some Pending
      /\ nth_error (promises (dispatch_open (connect st1))) p = Some Pending
      /\ nth_error (promises (dispatch_error (connect st1))) p = Some Pending
  end.
Proof.
  cbv zeta.
  destruct (isReady_spec st) as [Hp Hcase]. rewrite Hp.
  assert (Hstale :
            forall st1,
              getStatus st1 = DISCONNECTED \/ getStatus st1 = CLOSED ->
              promises st1 = promises st ++ [Pending] ->
              nth_error (promises st1) (length (promises st)) = Some Pending
              /\ nth_error (promises (dispatch_open (connect st1)))
                           (length (promises st)) = Some Pending
              /\ nth_error (promises (dispatch_error (connect st1)))
                           (length (promises st)) = Some Pending).
  { intros st1 Hst Hps.
    assert (Hn : nth_error (promises st1) (length (promises st)) = Some Pending)
      by (rewrite Hps; apply nth_error_last).
    destruct (stale_promise_stays_pending st1 _ Hst Hn) as (? & ? & _).
    auto. }
  assert (Hwait :
            forall st1 s',
              promises st1 = promises st ++ [Pending] ->
              ws st1 = Some s' ->
              In (length (promises st)) (open_once s') ->
              In (length (promises st)) (error_once s') ->
              nth_error (promises st1) (length (promises st)) = Some Pending
              /\ nth_error (promises (dispatch_open st1))
                           (length (promises st)) = Some Fulfilled
              /\ nth_error (promises (dispatch_error st1))
                           (length (promises st)) = Some Rejected
              /\ nth_error (promises (dispatch_error (dispatch_open st1)))
                           (length (promises st)) = Some Fulfilled
              /\ nth_error (promises (dispatch_open (dispatch_error st1)))
                           (length (promises st)) = Some Rejected).
  { intros st1 s' Hps Hws Ho He.
    assert (Hn : nth_error (promises st1) (length (promises st)) = Some Pending)
      by (rewrite Hps; apply nth_error_last).
    split; [ exact Hn | ].
    now apply (waiting_promise_settles st1 s'). }
  unfold getStatus.
  destruct (ws st) as [s | ] eqn:Hws.
  - destruct (readyState s) eqn:Hr; simpl in Hcase.
    + destruct Hcase as (Hps & s' & Hws' & _ & Ho & He).
      apply (Hwait _ s'); auto; rewrite ?Ho, ?He; apply in_or_app;
        right; now left.
    + destruct Hcase as [-> _]. apply nth_error_last.
    + destruct Hcase as (Hps & s' & Hws' & _ & Ho & He).
      apply (Hwait _ s'); auto; rewrite ?Ho, ?He; apply in_or_app;
        right; now left.
    + destruct Hcase as (Hps & s' & Hws' & Hr' & _).
      apply Hstale; auto. right. unfold getStatus.
      now rewrite Hws', Hr'.
  - destruct Hcase as [Hps Hws'].
    apply Hstale; auto. left. unfold getStatus. now rewrite Hws'.
Qed.

(** *** createClient *)

(** Once [instance] is set, a call returns it and does nothing else. *)
Lemma createClient_returns_instance
      (cfg : WebSocketClientConfig) (w : World) (handle : nat) :
  instance w = Some handle ->
  createClient cfg w = (w, Returned handle).
Proof. intros H. unfold createClient. now rewrite H. Qed.

(** A call that runs to completion sets [instance], so every call made
    after it returns the same handle and leaves the world as it is. *)
Lemma createClient_after_completion
      (c1 c2 : WebSocketClientConfig) (w w1 : World) (handle : nat) :
  createClient c1 w = (w1, Returned handle) ->
  createClient c2 w1 = (w1, Returned handle).
Proof.
  unfold createClient.
  destruct (instance w) as [h | ] eqn:Hi.
  - intros H. injection H as <- <-. now rewrite Hi.
  - destruct (token_missing _); [ discriminate | ].
    unfold createClient_finish. intros H. injection H as <- <-.
    reflexivity.
Qed.

(** C10.  Two calls that overlap: with no token in the store, the
    first call is suspended at [await fetch(...)] before it has set
    [instance], so the second call does not return the first one's
    client.  It fetches a token too, builds a client of its own from its
    own configuration, and [instance] ends up naming that client. *)
Theorem createClient_overlapping_calls
        (c1 c2 : WebSocketClientConfig) (fetched : string) :
  let w0 := mkWorld None None [] [] [] in
  let w1 := fst (createClient c1 w0) in
  let w2 := fst (createClient c2 w1) in
  let w3 := fst (createClient_resume c1 fetched w2) in
  let w4 := fst (createClient_resume c2 fetched w3) in
  snd (createClient c1 w0) = AwaitingToken c1
  /\ snd (createClient c2 w1) = AwaitingToken c2
  /\ snd (createClient_resume c1 fetched w2) = 0
  /\ snd (createClient_resume c2 fetched w3) = 1
  /\ instance w4 = Some 1
  /\ option_map config (nth_error (clients w4) 0) = Some c1
  /\ option_map config (nth_error (clients w4) 1) = Some c2
  /\ count_fetches (host_log w4) = 2.
Proof.
  cbv zeta. simpl.
  destruct (autoConnect c1) as [[ | ] | ], (autoConnect c2) as [[ | ] | ];
    simpl; repeat split.
Qed.

(** ** Further properties of the client *)

(** *** connect and disconnect *)

Lemma connect_keeps_live_socket (st : State) :
  getStatus st = CONNECTING \/ getStatus st = CONNECTED \/ getStatus st = CLOSING ->
  connect st = st.
Proof.
  unfold connect, getStatus.
  destruct (ws st) as [s | ].
  - destruct (readyState s); simpl; intros [H | [H | H]];
      try reflexivity; discriminate.
  - intros [H | [H | H]]; discriminate.
Qed.

Lemma connect_builds_socket (st : State) :
  getStatus st = DISCONNECTED \/ getStatus st = CLOSED ->
  connect st = reconnect 0 st.
Proof.
  unfold connect, getStatus.
  destruct (ws st) as [s | ]; [ | reflexivity ].
  destruct (readyState s); simpl; intros [H | H]; try reflexivity;
    discriminate.
Qed.

(** X1.  [connect] leaves a Connecting, Connected or Closing client exactly
    as it is.  On a client without socket, or with a Closed one, it
    builds one socket, for attempt 0, to [url?token=<encoded token>]
    (the empty token when the store has none), and touches neither the
    queue nor the listeners nor the timers.  Either way a second
    [connect] right after the first does nothing. *)
Theorem connect_once (st : State) :
  (getStatus st = CONNECTING \/ getStatus st = CONNECTED \/ getStatus st = CLOSING ->
   connect st = st)
  /\ (getStatus st = DISCONNECTED \/ getStatus st = CLOSED ->
      getStatus (connect st) = CONNECTING
      /\ option_map attempt_of (ws (connect st)) = Some 0
      /\ trace (connect st)
         = trace st
           ++ [NewWebSocket
                 (url (config st) ++ "?token="
                  ++ encodeURIComponent
                       (match token st with
                        | Some t => t
                        | None => EmptyString
                        end))%string]
      /\ messageQueue (connect st) = messageQueue st
      /\ listeners (connect st) = listeners st
      /\ timers (connect st) = timers st)
  /\ connect (connect st) = connect st.
Proof.
  split; [ apply connect_keeps_live_socket | ].
  split.
  - intros H. rewrite (connect_builds_socket st H).
    unfold reconnect, getStatus. simpl. repeat split.
  - destruct (getStatus st) eqn:Hs.
    + rewrite (connect_builds_socket st) by now left.
      apply connect_keeps_live_socket. left. reflexivity.
    + rewrite (connect_keeps_live_socket st) by now left.
      apply connect_keeps_live_socket. now left.
    + rewrite (connect_keeps_live_socket st) by (right; now left).
      apply connect_keeps_live_socket. right. now left.
    + rewrite (connect_keeps_live_socket st) by (right; now right).
      apply connect_keeps_live_socket. right. now right.
    + rewrite (connect_builds_socket st) by now right.
      apply connect_keeps_live_socket. left. reflexivity.
Qed.

(** X2.  [disconnect] on a Connecting, Connected or Closing client leaves
    the socket Closing.  Until the host has closed the socket, [connect]
    does nothing, and [send] neither writes nor drops: it queues the
    message under the usual bound. *)
Theorem disconnect_then_connect_or_send (m : JSON) (st : State) :
  getStatus st = CONNECTING \/ getStatus st = CONNECTED \/ getStatus st = CLOSING ->
  getStatus (disconnect st) = CLOSING
  /\ connect (disconnect st) = disconnect st
  /\ exists st',
      send m (disconnect st) = Ok st'
      /\ trace st' = trace (disconnect st)
      /\ messageQueue st'
         = (let q := messageQueue st ++ [m] in
            if maxQueueSize st <? length q then tl q else q).
Proof.
  intros Hlive.
  assert (Hclosing : getStatus (disconnect st) = CLOSING).
  { unfold disconnect, getStatus in *.
    destruct (ws st) as [s | ] eqn:Hws.
    - destruct (readyState s) eqn:Hr; simpl; rewrite ?Hws, ?Hr; try reflexivity.
      destruct Hlive as [H | [H | H]]; discriminate.
    - destruct Hlive as [H | [H | H]]; discriminate. }
  split; [ exact Hclosing | ].
  split.
  - apply connect_keeps_live_socket. right. now right.
  - destruct (send_buffers m (disconnect st)) as (st' & Hs & Ht & _ & _ & Hq).
    + destruct (readyState_is WS_OPEN (disconnect st)) eqn:Ho; [ | reflexivity ].
      apply status_connected in Ho. congruence.
    + destruct (readyState_is WS_CLOSED (disconnect st)) eqn:Hc; [ | reflexivity ].
      apply status_closed in Hc. congruence.
    + exists st'. split; [ exact Hs | ]. split; [ exact Ht | ].
      rewrite Hq. unfold disconnect, maxQueueSize.
      destruct (ws st) as [s | ]; [ | reflexivity ].
      destruct (readyState s); reflexivity.
Qed.

(** *** Subscribing and unsubscribing *)

Lemma set_registry_registry (k : Kind) (ls : Listeners) :
  set_registry k (registry k ls) ls = ls.
Proof. destruct k, ls; reflexivity. Qed.


Lemma set_registry_twice (k : Kind) (a b : list Listener) (ls : Listeners) :
  set_registry k a (set_registry k b ls) = set_registry k a ls.
Proof. destruct k; reflexivity. Qed.


Lemma set_listeners_listeners (st : State) : set_listeners (listeners st) st = st.
Proof. now destruct st. Qed.

(** X3.  Subscribing a listener that is not yet registered for that kind of
    event and then calling the closure that was returned gives back the
    state there was before, whole. *)
Theorem subscribe_then_unsubscribe (k : Kind) (l : Listener) (st : State) :
  ~ In l (registry k (listeners st)) ->
  step (CallUnsubscribe k l) (step (CallOn k l) st) = st.
Proof.
  intros Hn. simpl. unfold add_listener, unsubscribe. simpl.
  rewrite registry_set_registry.
  replace (registry k (listeners st) ++ [l])
    with (registry k (listeners st) ++ l :: []) by reflexivity.
  rewrite indexOf_app by exact Hn.
  rewrite splice1_app, app_nil_r, set_registry_twice, set_registry_registry.
  unfold set_listeners. simpl. now destruct st.
Qed.


(** X5.  A listener is called after the listeners that were registered for
    that kind of event before it, and a listener registered twice is
    called twice: when the listeners do nothing to the client, a publish
    after [on k l] calls the listeners there were, in order, then [l]. *)
Theorem listeners_called_in_registration_order
        (k : Kind) (l : Listener) (p : Payload) (st : State) :
  (forall l', In l' (registry k (listeners st) ++ [l]) -> react l' p = []) ->
  trace (publish k p (add_listener k l st))
  = trace st ++ notifications k p (registry k (listeners st) ++ [l]).
Proof.
  intros Hq.
  destruct (publish_spec k p (add_listener k l st))
    as (called & Ht & _ & Hquiet & _).
  unfold add_listener in *. simpl in *.
  rewrite registry_set_registry in Hquiet.
  destruct (Hquiet Hq) as [-> _]. exact Ht.
Qed.

(** X6.  [ws.onerror] tells the error-listeners and does nothing else: the
    socket, the queue, the reconnect timers and the promises are as
    before.  It neither closes nor reconnects. *)
Theorem onerror_only_notifies (st : State) :
  published error PEvent st (onerror st)
  /\ ws (onerror st) = ws st
  /\ messageQueue (onerror st) = messageQueue st
  /\ timers (onerror st) = timers st
  /\ promises (onerror st) = promises st.
Proof.
  unfold onerror. split; [ apply publish_published | ].
  destruct (publish_spec error PEvent st)
    as (_ & _ & _ & _ & _ & _ & Hq & Hw & Hp & Ht & _).
  auto.
Qed.

(** *** From the queue to the socket *)

Lemma maxQueueSize_positive (st : State) : 1 <= maxQueueSize st.
Proof.
  unfold maxQueueSize, or_default.
  destruct (cfg_maxQueueSize (config st)) as [[ | n] | ]; lia.
Qed.

Lemma forallb_skipn (f : JSON -> bool) (n : nat) (ms : list JSON) :
  forallb f ms = true -> forallb f (skipn n ms) = true.
Proof.
  revert n. induction ms as [ | m ms IH]; intros [ | n] H; simpl in *; auto.
  apply andb_true_iff in H. now apply IH.
Qed.

(** Sends to a client that is neither Connected nor Closed touch the
    queue only. *)
Lemma send_all_frame (ms : list JSON) :
  forall st,
    readyState_is WS_OPEN st = false ->
    readyState_is WS_CLOSED st = false ->
    exists st',
      send_all ms st = Ok st'
      /\ trace st' = trace st /\ ws st' = ws st /\ config st' = config st.
Proof.
  induction ms as [ | m ms IH]; intros st Ho Hc; simpl.
  - exists st. auto.
  - destruct (send_buffers m st Ho Hc) as (st1 & Hs & Ht & Hw & Hcf & _).
    rewrite Hs.
    destruct (IH st1) as (st' & Hs' & Ht' & Hw' & Hcf').
    + unfold readyState_is in *. now rewrite Hw.
    + unfold readyState_is in *. now rewrite Hw.
    + exists st'. repeat split; congruence.
Qed.

(** While the buffer takes every frame, writing keeps the socket open. *)
Lemma drain_loop_stays_open (n : nat) :
  forall st,
    (forall history frame, buffer_accepts history frame = true) ->
    readyState_is WS_OPEN st = true ->
    forallb truthy (messageQueue st) = true ->
    readyState_is WS_OPEN (fst (drain_loop n st)) = true.
Proof.
  induction n as [ | n IH]; intros st Hbuf Ho Ht; [ exact Ho | ].
  destruct (messageQueue st) as [ | v q] eqn:Hq.
  - now rewrite drain_loop_nil.
  - rewrite (drain_loop_cons n st v q Hq).
    simpl in Ht. apply andb_true_iff in Ht. destruct Ht as [Hv Hrest].
    unfold try_write. rewrite Hv.
    replace (readyState_is WS_OPEN (set_queue q st)) with true by exact (eq_sym Ho).
    simpl. unfold ws_send. simpl.
    unfold readyState_is in Ho.
    destruct (ws st) as [s | ]; [ | discriminate ].
    apply ReadyState_eqb_eq in Ho. rewrite Ho, Hbuf.
    apply IH; [ exact Hbuf | reflexivity | exact Hrest ].
Qed.

(** When a socket opens whose buffer takes every frame, a queue of
    truthy messages is written out in order before the open-listeners are
    told, and the client is Connected with an empty queue. *)
Lemma flush_on_open (st : State) (s : Socket) :
  (forall history frame, buffer_accepts history frame = true) ->
  ws st = Some s ->
  forallb truthy (messageQueue st) = true ->
  messageQueue (dispatch_open st) = []
  /\ getStatus (dispatch_open st) = CONNECTED
  /\ exists called,
      trace (dispatch_open st)
      = trace st ++ map frame_of (messageQueue st)
        ++ notifications open PNothing called.
Proof.
  intros Hbuf Hws Ht. unfold dispatch_open, onopen. rewrite Hws.
  set (st0 := set_ws (Some (set_readyState WS_OPEN s)) st).
  assert (Ho0 : readyState_is WS_OPEN st0 = true) by reflexivity.
  pose proof (drain_loop_completes (length (messageQueue st0)) st0 Hbuf Ho0 Ht)
    as Hfin.
  pose proof (drain_loop_stays_open (length (messageQueue st0)) st0 Hbuf Ho0 Ht)
    as Hopen.
  fold (drain st0) in Hfin, Hopen.
  destruct (drain st0) as [st1 e] eqn:Hd. simpl in Hfin, Hopen. subst e.
  destruct (drain_spec st0 st1 Finished Hd)
    as (written & rest & Hq & Hr & Htr & _ & He).
  rewrite He in Hq, Hr. rewrite app_nil_r in Hq. simpl in Htr.
  rewrite app_nil_r in Htr.
  destruct (publish_spec open PNothing st1)
    as (called & Htp & _ & _ & _ & _ & Hqp & Hwp & _).
  simpl fst.
  unfold readyState_is in Hopen. rewrite <- Hwp in Hopen.
  destruct (ws (publish open PNothing st1)) as [s1 | ]; [ | discriminate ].
  apply ReadyState_eqb_eq in Hopen.
  simpl. split; [ congruence | ].
  split; [ unfold getStatus; simpl; now rewrite Hopen | ].
  exists called. rewrite Htp, Htr, <- Hq, <- app_assoc. reflexivity.
Qed.

(** X7.  Messages sent while the socket is still connecting are written, in
    the order sent, as soon as it opens, before the open-listeners are
    told, provided they are truthy and the socket's buffer takes them;
    if more were sent than [maxQueueSize], the newest [maxQueueSize] of
    them are.  The queue is empty afterwards. *)
Theorem queued_messages_flushed_on_open (ms : list JSON) (st : State) :
  (forall history frame, buffer_accepts history frame = true) ->
  getStatus st = CONNECTING ->
  messageQueue st = [] ->
  forallb truthy ms = true ->
  exists st1,
    send_all ms st = Ok st1
    /\ messageQueue (dispatch_open st1) = []
    /\ getStatus (dispatch_open st1) = CONNECTED
    /\ exists called,
        trace (dispatch_open st1)
        = trace st
          ++ map frame_of (skipn (length ms - maxQueueSize st) ms)
          ++ notifications open PNothing called.
Proof.
  intros Hbuf Hst Hq Ht.
  assert (Ho : readyState_is WS_OPEN st = false).
  { destruct (readyState_is WS_OPEN st) eqn:Ho; [ | reflexivity ].
    apply status_connected in Ho. congruence. }
  assert (Hc : readyState_is WS_CLOSED st = false).
  { destruct (readyState_is WS_CLOSED st) eqn:Hc; [ | reflexivity ].
    apply status_closed in Hc. congruence. }
  destruct (send_all_buffers ms st Ho Hc) as (st1 & Hs & Hq1).
  { rewrite Hq. simpl. lia. }
  destruct (send_all_frame ms st Ho Hc) as (st1' & Hs' & Htr & Hw & _).
  rewrite Hs in Hs'. injection Hs' as <-.
  rewrite Hq in Hq1. simpl app in Hq1.
  exists st1. split; [ exact Hs | ].
  unfold getStatus in Hst.
  destruct (ws st) as [s | ] eqn:Hws; [ | discriminate ].
  destruct (flush_on_open st1 s Hbuf) as (Hempty & Hconn & called & Htrace).
  - congruence.
  - rewrite Hq1. now apply forallb_skipn.
  - split; [ exact Hempty | ]. split; [ exact Hconn | ].
    exists called. now rewrite Htrace, Htr, Hq1.
Qed.

(** X8.  [subscribe] writes its subscribe-intent at once on a Connected
    client; on a client that is still connecting it queues it, and the
    intent is written when the socket opens. *)
Theorem subscribe_sends_intent (channelName : string) (st : State) :
  (getStatus st = CONNECTED ->
   exists st1,
     subscribe channelName st = Ok st1
     /\ trace st1
        = trace st ++ [WsSend (JSON_stringify (subscribe_intent channelName))]
     /\ messageQueue st1 = messageQueue st)
  /\ ((forall history frame, buffer_accepts history frame = true) ->
      getStatus st = CONNECTING ->
      messageQueue st = [] ->
      exists st1,
        subscribe channelName st = Ok st1
        /\ trace st1 = trace st
        /\ messageQueue st1 = [subscribe_intent channelName]
        /\ exists called,
            trace (dispatch_open st1)
            = trace st
              ++ [WsSend (JSON_stringify (subscribe_intent channelName))]
              ++ notifications open PNothing called).
Proof.
  unfold subscribe. fold (subscribe_intent channelName). split.
  - intros Hst. apply status_connected in Hst.
    destruct (send_when_open (subscribe_intent channelName) st Hst)
      as (st1 & Hs & Ht & Hq & _).
    exists st1. auto.
  - intros Hbuf Hst Hq.
    assert (Ho : readyState_is WS_OPEN st = false).
    { destruct (readyState_is WS_OPEN st) eqn:Ho; [ | reflexivity ].
      apply status_connected in Ho. congruence. }
    assert (Hc : readyState_is WS_CLOSED st = false).
    { destruct (readyState_is WS_CLOSED st) eqn:Hc; [ | reflexivity ].
      apply status_closed in Hc. congruence. }
    destruct (send_buffers (subscribe_intent channelName) st Ho Hc)
      as (st1 & Hs & Ht & Hw & _ & Hq1).
    rewrite Hq in Hq1. simpl in Hq1.
    pose proof (maxQueueSize_positive st) as Hpos.
    destruct (Nat.ltb_spec (maxQueueSize st) 1) as [Hlt | _]; [ lia | ].
    exists st1. repeat split; auto.
    unfold getStatus in Hst.
    destruct (ws st) as [s | ] eqn:Hws; [ | discriminate ].
    destruct (flush_on_open st1 s Hbuf) as (_ & _ & called & Htrace).
    + congruence.
    + rewrite Hq1. reflexivity.
    + exists called. now rewrite Htrace, Ht, Hq1.
Qed.

(** X9.  A message that cannot be written blocks the queue.  When the
    handler [ws.onopen] runs while the client's socket is not open, or
    while the message at the front of the queue is falsy, nothing is
    written, one error is logged, and the queue is exactly as it was,
    whatever is queued behind. *)
Theorem unwritable_head_blocks_queue (st : State) (v : JSON) (q : list JSON) :
  messageQueue st = v :: q ->
  readyState_is WS_OPEN st = false \/ truthy v = false ->
  drain st = (emit [ConsoleError] st, Break)
  /\ messageQueue (onopen st) = v :: q.
Proof.
  intros Hq Hblock.
  assert (Hd : drain st = (emit [ConsoleError] st, Break)).
  { unfold drain. rewrite Hq. cbn [length].
    rewrite (drain_loop_cons _ st v q Hq).
    assert (Hw : exists err, try_write (Some v) (set_queue q st) = Throw err).
    { unfold try_write.
      replace (readyState_is WS_OPEN (set_queue q st))
        with (readyState_is WS_OPEN st) by reflexivity.
      destruct Hblock as [-> | ->]; rewrite ?andb_false_r; simpl; eauto. }
    destruct Hw as [err ->]. f_equal.
    unfold queueUnshift, emit, set_queue. simpl. rewrite <- Hq.
    now destruct st. }
  split; [ exact Hd | ].
  unfold onopen. rewrite Hd. simpl fst.
  destruct (publish_spec open PNothing (emit [ConsoleError] st))
    as (_ & _ & _ & _ & _ & _ & -> & _).
  exact Hq.
Qed.

(** *** What each event leaves alone *)

Lemma send_frame (m : JSON) (st st' : State) :
  send m st = Ok st' ->
  config st' = config st /\ timers st' = timers st
  /\ promises st' = promises st
  /\ option_map attempt_of (ws st') = option_map attempt_of (ws st).
Proof.
  unfold send, ws_send, readyState_is, queueShift.
  destruct (ws st) as [s | ] eqn:Hws; simpl.
  - destruct (readyState s); simpl;
      try (intros H; injection H as <-; simpl; rewrite ?Hws; auto; fail);
      destruct (_ <? _); try destruct (messageQueue st ++ [m]);
      intros H; injection H as <-; simpl; rewrite ?Hws; auto.
  - destruct (_ <? _); try destruct (messageQueue st ++ [m]);
      intros H; injection H as <-; simpl; rewrite ?Hws; auto.
Qed.

Lemma state_after_send_frame (m : JSON) (st : State) :
  config (state_after (send m st) st) = config st
  /\ timers (state_after (send m st) st) = timers st
  /\ promises (state_after (send m st) st) = promises st
  /\ option_map attempt_of (ws (state_after (send m st) st))
     = option_map attempt_of (ws st).
Proof.
  destruct (send m st) as [st' | e] eqn:Hs; simpl; [ | auto ].
  now apply (send_frame m).
Qed.

Lemma connect_frame (st : State) :
  config (connect st) = config st /\ timers (connect st) = timers st
  /\ promises (connect st) = promises st
  /\ messageQueue (connect st) = messageQueue st
  /\ (ws (connect st) = ws st
      \/ option_map attempt_of (ws (connect st)) = Some 0).
Proof.
  unfold connect, reconnect.
  destruct (ws st) as [s | ] eqn:Hws; [ destruct (ReadyState_eqb _ _) | ];
    simpl; rewrite ?Hws; repeat split; auto.
Qed.

Lemma disconnect_frame (st : State) :
  config (disconnect st) = config st /\ timers (disconnect st) = timers st
  /\ promises (disconnect st) = promises st
  /\ messageQueue (disconnect st) = messageQueue st
  /\ option_map attempt_of (ws (disconnect st)) = option_map attempt_of (ws st).
Proof.
  unfold disconnect.
  destruct (ws st) as [s | ] eqn:Hws; [ destruct (readyState s) | ]; simpl;
    rewrite ?Hws; auto 10.
Qed.

Lemma isReady_frame (st : State) :
  config (snd (isReady st)) = config st
  /\ timers (snd (isReady st)) = timers st
  /\ messageQueue (snd (isReady st)) = messageQueue st
  /\ option_map attempt_of (ws (snd (isReady st)))
     = option_map attempt_of (ws st)
  /\ exists v, promises (snd (isReady st)) = promises st ++ [v].
Proof.
  unfold isReady.
  destruct (readyState_is WS_OPEN st); simpl.
  - repeat split. eauto.
  - destruct (ws st) as [s | ] eqn:Hws; simpl; rewrite ?Hws; repeat split; eauto.
Qed.

Lemma publish_frame (k : Kind) (p : Payload) (st : State) :
  config (publish k p st) = config st
  /\ timers (publish k p st) = timers st
  /\ promises (publish k p st) = promises st
  /\ messageQueue (publish k p st) = messageQueue st
  /\ ws (publish k p st) = ws st.
Proof.
  destruct (publish_spec k p st)
    as (_ & _ & _ & _ & ? & _ & ? & ? & ? & ? & _).
  auto 10.
Qed.

Lemma onmessage_catch_frame (data : FrameData) (st : State) :
  config (onmessage_catch data st) = config st
  /\ timers (onmessage_catch data st) = timers st
  /\ promises (onmessage_catch data st) = promises st
  /\ messageQueue (onmessage_catch data st) = messageQueue st
  /\ ws (onmessage_catch data st) = ws st.
Proof.
  unfold onmessage_catch.
  destruct (is_nonempty_string data); [ apply publish_frame | ].
  repeat split.
Qed.

Lemma onmessage_frame (data : FrameData) (st : State) :
  config (onmessage data st) = config st
  /\ timers (onmessage data st) = timers st
  /\ promises (onmessage data st) = promises st
  /\ messageQueue (onmessage data st) = messageQueue st
  /\ ws (onmessage data st) = ws st.
Proof.
  unfold onmessage.
  destruct (JSON_parse (toString data)) as [v | ];
    [ | apply onmessage_catch_frame ].
  destruct (publish_frame message (PValue v) st)
    as (Hc & Ht & Hp & Hq & Hw).
  destruct (publish_throws message (PValue v) st); [ | auto 10 ].
  destruct (onmessage_catch_frame data (publish message (PValue v) st))
    as (Hc' & Ht' & Hp' & Hq' & Hw').
  rewrite Hc', Ht', Hp', Hq', Hw'. auto 10.
Qed.

(** The timers after [ws.onclose]: as before, or one more, for the next
    attempt, which is below [maxReconnectAttempts], after the delay the
    schedule has for this attempt. *)
Lemma onclose_frame (attempt : nat) (code : Z) (st : State) :
  config (onclose attempt code st) = config st
  /\ promises (onclose attempt code st) = promises st
  /\ messageQueue (onclose attempt code st) = messageQueue st
  /\ ws (onclose attempt code st) = ws st
  /\ (timers (onclose attempt code st) = timers st
      \/ (attempt + 1 < maxReconnectAttempts (config st)
          /\ timers (onclose attempt code st)
             = timers st ++ [(times (Math_pow2 attempt) 1000, attempt + 1)])).
Proof.
  unfold onclose.
  set (st1 := if should_reconnect attempt code st then _ else st).
  destruct (publish_spec close (PClose code) st1)
    as (_ & _ & _ & _ & Hc & _ & Hq & Hw & Hp & Ht & _).
  rewrite Hc, Hq, Hw, Hp, Ht. subst st1.
  destruct (should_reconnect attempt code st) eqn:Hs; simpl; auto 10.
  repeat split. right.
  unfold should_reconnect in Hs.
  destruct (ws st) as [s | ]; [ | discriminate ].
  apply andb_true_iff in Hs. destruct Hs as [Hs _].
  apply andb_true_iff in Hs. destruct Hs as [_ Hs].
  apply Z.ltb_lt in Hs.
  split; [ lia | ].
  unfold timeout_at. rewrite reconnectTimeouts_nth by lia. reflexivity.
Qed.

Lemma dispatch_open_frame (st : State) :
  config (dispatch_open st) = config st
  /\ timers (dispatch_open st) = timers st
  /\ option_map attempt_of (ws (dispatch_open st))
     = option_map attempt_of (ws st)
  /\ exists written, messageQueue st = written ++ messageQueue (dispatch_open st).
Proof.
  unfold dispatch_open, onopen.
  destruct (ws st) as [s | ] eqn:Hws.
  - set (st0 := set_ws (Some (set_readyState WS_OPEN s)) st).
    destruct (drain st0) as [st1 e] eqn:Hd.
    destruct (drain_spec st0 st1 e Hd)
      as (written & rest & Hq & Hr & _ & (Hc & _ & _ & _ & Ht & _ & Hw) & _).
    destruct (publish_spec open PNothing st1)
      as (_ & _ & _ & _ & Hcp & _ & Hqp & Hwp & _ & Htp & _).
    simpl fst. simpl in Hw.
    rewrite <- Hwp in Hw.
    destruct (ws (publish open PNothing st1)) as [s1 | ]; [ | contradiction ].
    destruct Hw as (_ & Ha & _). simpl.
    rewrite Hcp, Htp, Hqp, Hc, Ht, Hr, Ha.
    repeat split. exists written. exact Hq.
  - rewrite Hws. repeat split. now exists [].
Qed.

Lemma dispatch_error_frame (st : State) :
  config (dispatch_error st) = config st
  /\ timers (dispatch_error st) = timers st
  /\ messageQueue (dispatch_error st) = messageQueue st
  /\ option_map attempt_of (ws (dispatch_error st))
     = option_map attempt_of (ws st).
Proof.
  unfold dispatch_error, onerror.
  destruct (ws st) as [s | ] eqn:Hws; [ | rewrite Hws; auto ].
  destruct (publish_spec error PEvent st)
    as (_ & _ & _ & _ & Hc & _ & Hq & Hw & _ & Ht & _).
  rewrite Hw, Hws. simpl. rewrite Hc, Hq, Ht. auto.
Qed.

Lemma onidle_frame (st : State) :
  config (onidle st) = config st /\ timers (onidle st) = timers st
  /\ promises (onidle st) = promises st
  /\ messageQueue (onidle st) = messageQueue st
  /\ ws (onidle st) = ws st
  /\ idleTimeout (onidle st) = None.
Proof.
  unfold onidle.
  destruct (publish_spec idle PNothing (set_idleTimeout None st))
    as (_ & _ & _ & _ & ? & _ & ? & ? & ? & ? & ?).
  auto 10.
Qed.

Lemma fire_timer_frame (i : nat) (st : State) :
  config (fire_timer i st) = config st
  /\ promises (fire_timer i st) = promises st
  /\ messageQueue (fire_timer i st) = messageQueue st.
Proof.
  unfold fire_timer, reconnect.
  destruct (nth_error (timers st) i) as [[ms a] | ]; simpl; auto.
Qed.

(** No event changes the configuration. *)
Lemma step_config (e : Event) (st : State) : config (step e st) = config st.
Proof.
  destruct e; simpl.
  - apply state_after_send_frame.
  - apply state_after_send_frame.
  - apply connect_frame.
  - apply disconnect_frame.
  - apply isReady_frame.
  - reflexivity.
  - reflexivity.
  - reflexivity.
  - destruct (idleTimeout st); [ apply onidle_frame | reflexivity ].
  - apply dispatch_open_frame.
  - apply dispatch_error_frame.
  - apply onmessage_frame.
  - apply onclose_frame.
  - destruct (ws st); reflexivity.
  - apply fire_timer_frame.
Qed.

(** *** Invariants of the transition system *)

Lemma step_queue_bound (e : Event) (st : State) :
  length (messageQueue st) <= maxQueueSize st ->
  length (messageQueue (step e st)) <= maxQueueSize st.
Proof.
  intros Hle. destruct e; simpl.
  - destruct (send m st) as [st' | err] eqn:Hs; simpl; [ | exact Hle ].
    destruct (send_queue_length m st st' Hs Hle) as [H Hc].
    unfold maxQueueSize in *. now rewrite <- Hc.
  - unfold subscribe.
    destruct (send _ st) as [st' | err] eqn:Hs; simpl; [ | exact Hle ].
    destruct (send_queue_length _ st st' Hs Hle) as [H Hc].
    unfold maxQueueSize in *. now rewrite <- Hc.
  - destruct (connect_frame st) as (_ & _ & _ & -> & _). exact Hle.
  - destruct (disconnect_frame st) as (_ & _ & _ & -> & _). exact Hle.
  - destruct (isReady_frame st) as (_ & _ & -> & _). exact Hle.
  - exact Hle.
  - exact Hle.
  - exact Hle.
  - destruct (idleTimeout st); [ | exact Hle ].
    destruct (onidle_frame st) as (_ & _ & _ & -> & _). exact Hle.
  - destruct (dispatch_open_frame st) as (_ & _ & _ & written & Hq).
    rewrite Hq, length_app in Hle. lia.
  - destruct (dispatch_error_frame st) as (_ & _ & -> & _). exact Hle.
  - destruct (onmessage_frame data st) as (_ & _ & _ & -> & _). exact Hle.
  - destruct (onclose_frame attempt code st) as (_ & _ & -> & _). exact Hle.
  - destruct (ws st); exact Hle.
  - destruct (fire_timer_frame i st) as (_ & _ & ->). exact Hle.
Qed.

Lemma run_config (es : list Event) :
  forall st, config (run es st) = config st.
Proof.
  unfold run. induction es as [ | e es IH]; intros st; simpl; [ reflexivity | ].
  now rewrite IH, step_config.
Qed.

(** X10.  Whatever happens to the client (calls, socket events, timers, in
    any order), a queue that is within [maxQueueSize] stays within it. *)
Theorem queue_bound_is_invariant (es : list Event) (st : State) :
  length (messageQueue st) <= maxQueueSize st ->
  length (messageQueue (run es st)) <= maxQueueSize st.
Proof.
  revert st. unfold run.
  induction es as [ | e es IH]; intros st Hle; simpl; [ exact Hle | ].
  replace (maxQueueSize st) with (maxQueueSize (step e st))
    by (unfold maxQueueSize; now rewrite step_config).
  apply IH.
  replace (maxQueueSize (step e st)) with (maxQueueSize st)
    by (unfold maxQueueSize; now rewrite step_config).
  now apply step_queue_bound.
Qed.

Lemma maxReconnectAttempts_positive (c : WebSocketClientConfig) :
  1 <= maxReconnectAttempts c.
Proof.
  unfold maxReconnectAttempts, or_default.
  destruct (cfg_maxReconnectAttempts c) as [[ | n] | ]; lia.
Qed.

Lemma within_schedule_same (st st' : State) :
  config st' = config st ->
  timers st' = timers st ->
  option_map attempt_of (ws st') = option_map attempt_of (ws st) ->
  within_schedule st -> within_schedule st'.
Proof.
  unfold within_schedule. intros -> -> Hw [Ht Ha]. split; [ exact Ht | ].
  destruct (ws st') as [s' | ]; [ | exact I ].
  destruct (ws st) as [s | ]; [ | discriminate ].
  simpl in Hw. injection Hw as ->. exact Ha.
Qed.

Lemma Forall_without {A : Type} (P : A -> Prop) (i : nat) (l : list A) :
  Forall P l -> Forall P (firstn i l ++ skipn (S i) l).
Proof.
  intros H. rewrite Forall_forall in *. intros x Hx. apply H.
  apply in_app_or in Hx. rewrite <- (firstn_skipn i l). apply in_or_app.
  destruct Hx as [Hx | Hx]; [ now left | right ].
  rewrite <- (firstn_skipn 1 (skipn i l)), skipn_skipn.
  apply in_or_app. right. now rewrite Nat.add_1_l.
Qed.

Lemma step_within_schedule (e : Event) (st : State) :
  within_schedule st -> within_schedule (step e st).
Proof.
  intros Hin. destruct e; simpl.
  - destruct (state_after_send_frame m st) as (? & ? & _ & ?).
    now apply (within_schedule_same st).
  - destruct (state_after_send_frame (subscribe_intent channelName) st)
      as (? & ? & _ & ?).
    now apply (within_schedule_same st).
  - destruct (connect_frame st) as (Hc & Ht & _ & _ & [Hw | Hw]).
    + apply (within_schedule_same st); auto. now rewrite Hw.
    + destruct Hin as [Htm _]. unfold within_schedule.
      rewrite Hc, Ht. split; [ exact Htm | ].
      destruct (ws (connect st)) as [s | ]; [ | exact I ].
      simpl in Hw. injection Hw as ->.
      pose proof (maxReconnectAttempts_positive (config st)). lia.
  - destruct (disconnect_frame st) as (? & ? & _ & _ & ?).
    now apply (within_schedule_same st).
  - destruct (isReady_frame st) as (? & ? & _ & ? & _).
    now apply (within_schedule_same st).
  - now apply (within_schedule_same st).
  - now apply (within_schedule_same st).
  - now apply (within_schedule_same st).
  - destruct (idleTimeout st); [ | exact Hin ].
    destruct (onidle_frame st) as (? & ? & _ & _ & Hw & _).
    apply (within_schedule_same st); auto. now rewrite Hw.
  - destruct (dispatch_open_frame st) as (? & ? & ? & _).
    now apply (within_schedule_same st).
  - destruct (dispatch_error_frame st) as (? & ? & _ & ?).
    now apply (within_schedule_same st).
  - destruct (onmessage_frame data st) as (? & ? & _ & _ & Hw).
    apply (within_schedule_same st); auto. now rewrite Hw.
  - destruct (onclose_frame attempt code st)
      as (Hc & _ & _ & Hw & [Ht | [Hlt Ht]]).
    + apply (within_schedule_same st); auto. now rewrite Hw.
    + destruct Hin as [Htm Ha]. unfold within_schedule.
      rewrite Hc, Ht, Hw. split; [ | exact Ha ].
      apply Forall_app. split; [ exact Htm | ].
      constructor; [ | constructor ]. simpl.
      replace (attempt + 1 - 1) with attempt by lia.
      split; [ lia | apply reconnectTimeouts_nth; lia ].
  - destruct (ws st) as [s | ] eqn:Hws; [ | exact Hin ].
    apply (within_schedule_same st); auto. simpl. now rewrite Hws.
  - unfold fire_timer.
    destruct (nth_error (timers st) i) as [[ms a] | ] eqn:Hn; [ | exact Hin ].
    destruct Hin as [Htm _]. unfold within_schedule, reconnect. simpl.
    split; [ now apply Forall_without | ].
    apply nth_error_In in Hn. rewrite Forall_forall in Htm.
    apply Htm in Hn. simpl in Hn. lia.
Qed.

(** X11.  From createClient on, whatever happens: the client never has a
    reconnect pending for an attempt beyond [maxReconnectAttempts - 1],
    every pending reconnect waits what the schedule holds at index
    [attempt - 1], so the last entry of the schedule is never used, and
    no socket is built for an attempt beyond
    [maxReconnectAttempts - 1]. *)
Theorem reconnects_stay_within_schedule
        (cfg : WebSocketClientConfig) (tok : option string) (queue : list JSON)
        (es : list Event) :
  within_schedule (run es (initial_state cfg tok queue)).
Proof.
  assert (H : forall st, within_schedule st -> within_schedule (run es st)).
  { unfold run. induction es as [ | e es IH]; intros st Hin; simpl;
      [ exact Hin | ].
    apply IH. now apply step_within_schedule. }
  apply H. unfold within_schedule, initial_state. simpl. split; constructor.
Qed.

Lemma settled_append (ps : list PromiseState) (x : PromiseState)
      (p : nat) (v : PromiseState) :
  settled ps p v -> settled (ps ++ [x]) p v.
Proof.
  unfold settled. intros [Hn Hv]. split; [ | exact Hv ].
  rewrite nth_error_app1; [ exact Hn | ].
  apply nth_error_Some. congruence.
Qed.

Lemma step_settled (e : Event) (st : State) (p : nat) (v : PromiseState) :
  settled (promises st) p v -> settled (promises (step e st)) p v.
Proof.
  intros Hs. destruct e; simpl.
  - destruct (state_after_send_frame m st) as (_ & _ & -> & _). exact Hs.
  - destruct (state_after_send_frame (subscribe_intent channelName) st)
      as (_ & _ & Hp & _).
    unfold subscribe. fold (subscribe_intent channelName). now rewrite Hp.
  - destruct (connect_frame st) as (_ & _ & -> & _). exact Hs.
  - destruct (disconnect_frame st) as (_ & _ & -> & _). exact Hs.
  - destruct (isReady_frame st) as (_ & _ & _ & _ & x & ->).
    now apply settled_append.
  - exact Hs.
  - exact Hs.
  - exact Hs.
  - destruct (idleTimeout st); [ | exact Hs ].
    destruct (onidle_frame st) as (_ & _ & -> & _). exact Hs.
  - destruct (ws st) as [s | ] eqn:Hws.
    + destruct (dispatch_open_spec st s Hws) as (_ & _ & _ & _ & ->).
      destruct Hs as [Hn Hv]. split; [ | exact Hv ].
      now apply settle_all_settled.
    + unfold dispatch_open. now rewrite Hws.
  - destruct (ws st) as [s | ] eqn:Hws.
    + destruct (dispatch_error_spec st s Hws) as (_ & _ & _ & _ & ->).
      destruct Hs as [Hn Hv]. split; [ | exact Hv ].
      now apply settle_all_settled.
    + unfold dispatch_error. now rewrite Hws.
  - destruct (onmessage_frame data st) as (_ & _ & -> & _). exact Hs.
  - destruct (onclose_frame attempt code st) as (_ & -> & _). exact Hs.
  - destruct (ws st); exact Hs.
  - destruct (fire_timer_frame i st) as (_ & -> & _). exact Hs.
Qed.

(** X12.  The promise of [isReady] is settled once: after it has been
    resolved or rejected, nothing that happens to the client (a later
    error, another open, a reconnect, further [isReady] calls) changes
    it. *)
Theorem settled_promise_never_changes
        (es : list Event) (st : State) (p : nat) (v : PromiseState) :
  settled (promises st) p v -> settled (promises (run es st)) p v.
Proof.
  revert st. unfold run.
  induction es as [ | e es IH]; intros st Hs; simpl; [ exact Hs | ].
  apply IH. now apply step_settled.
Qed.

(** *** Reconnecting *)

Lemma onclose_timers (attempt : nat) (code : Z) (st : State) :
  timers (onclose attempt code st)
  = if should_reconnect attempt code st
    then timers st ++ [(timeout_at attempt st, attempt + 1)]
    else timers st.
Proof.
  unfold onclose.
  set (st1 := if should_reconnect attempt code st then _ else st).
  destruct (publish_spec close (PClose code) st1)
    as (_ & _ & _ & _ & _ & _ & _ & _ & _ & -> & _).
  subst st1. now destruct (should_reconnect attempt code st).
Qed.

Lemma nth_error_snoc {A : Type} (l : list A) (x : A) :
  nth_error (l ++ [x]) (length l) = Some x.
Proof. now rewrite nth_error_app2, Nat.sub_diag by lia. Qed.

Lemma without_last {A : Type} (l : list A) (x : A) :
  firstn (length l) (l ++ [x]) ++ skipn (S (length l)) (l ++ [x]) = l.
Proof.
  rewrite firstn_app, Nat.sub_diag, firstn_all. simpl firstn.
  rewrite skipn_all2 by (rewrite length_app; simpl; lia).
  now rewrite !app_nil_r.
Qed.

(** X13.  An abnormal closure and the timer it sets, together: when the
    handler of a socket built for [attempt] sees a close code other than
    1000 while the client's socket is not Closed and [attempt] is below
    [maxReconnectAttempts - 1], then, once the timer it has set fires,
    the client has a new socket, Connecting, built for [attempt + 1]; the
    timer is gone, and the queue and the promises are as they were. *)
Theorem scheduled_reconnect_builds_next_attempt
        (attempt : nat) (code : Z) (st : State) :
  code <> 1000%Z ->
  attempt + 1 < maxReconnectAttempts (config st) ->
  getStatus st <> CLOSED ->
  getStatus st <> DISCONNECTED ->
  getStatus (fire_timer (length (timers st)) (onclose attempt code st))
  = CONNECTING
  /\ option_map attempt_of
                (ws (fire_timer (length (timers st)) (onclose attempt code st)))
     = Some (attempt + 1)
  /\ timers (fire_timer (length (timers st)) (onclose attempt code st))
     = timers st
  /\ messageQueue (fire_timer (length (timers st)) (onclose attempt code st))
     = messageQueue st
  /\ promises (fire_timer (length (timers st)) (onclose attempt code st))
     = promises st.
Proof.
  intros Hcode Hatt Hcl Hd.
  assert (Hs : should_reconnect attempt code st = true).
  { unfold should_reconnect, getStatus in *.
    destruct (ws st) as [s | ]; [ | congruence ].
    destruct (Z.ltb_spec (Z.of_nat attempt)
                         (Z.of_nat (maxReconnectAttempts (config st)) - 1));
      [ | lia ].
    destruct (Z.eqb_spec code 1000); [ contradiction | ].
    destruct (readyState s); simpl; try reflexivity. congruence. }
  pose proof (onclose_timers attempt code st) as Ht. rewrite Hs in Ht.
  destruct (onclose_frame attempt code st) as (_ & Hp & Hq & _).
  unfold fire_timer. rewrite Ht, nth_error_snoc, without_last.
  unfold reconnect, getStatus. simpl. auto.
Qed.

(** *** isReady, more than once *)

(** X14.  Two [isReady] calls on a Connecting client give two promises, and
    the socket's "open" resolves both, its "error" rejects both. *)
Theorem isReady_twice (st : State) :
  getStatus st = CONNECTING ->
  fst (isReady st) <> fst (isReady (snd (isReady st)))
  /\ nth_error (promises (dispatch_open (snd (isReady (snd (isReady st))))))
               (fst (isReady st)) = Some Fulfilled
  /\ nth_error (promises (dispatch_open (snd (isReady (snd (isReady st))))))
               (fst (isReady (snd (isReady st)))) = Some Fulfilled
  /\ nth_error (promises (dispatch_error (snd (isReady (snd (isReady st))))))
               (fst (isReady st)) = Some Rejected
  /\ nth_error (promises (dispatch_error (snd (isReady (snd (isReady st))))))
               (fst (isReady (snd (isReady st)))) = Some Rejected.
Proof.
  intros Hst. unfold getStatus in Hst.
  destruct (isReady_spec st) as [Hp1 Hcase1].
  destruct (ws st) as [s | ] eqn:Hws; [ | discriminate ].
  destruct (readyState s) eqn:Hr; try discriminate. simpl in Hcase1.
  destruct Hcase1 as (Hps1 & s1 & Hws1 & Hr1 & Ho1 & He1).
  destruct (isReady_spec (snd (isReady st))) as [Hp2 Hcase2].
  rewrite Hws1, Hr1 in Hcase2. simpl in Hcase2.
  destruct Hcase2 as (Hps2 & s2 & Hws2 & _ & Ho2 & He2).
  rewrite Hp1, Hp2, Hps1, length_app. simpl.
  set (st2 := snd (isReady (snd (isReady st)))) in *.
  rewrite Hps1 in Hps2, Ho2, He2. rewrite length_app in Ho2, He2.
  simpl in Ho2, He2. rewrite Ho1 in Ho2. rewrite He1 in He2.
  assert (Hn1 : nth_error (promises st2) (length (promises st)) = Some Pending).
  { rewrite Hps2, nth_error_app1 by (rewrite length_app; simpl; lia).
    apply nth_error_last. }
  assert (Hn2 : nth_error (promises st2) (length (promises st) + 1) = Some Pending).
  { rewrite Hps2.
    replace (length (promises st) + 1) with (length (promises st ++ [Pending]))
      by (rewrite length_app; reflexivity).
    apply nth_error_last. }
  destruct (waiting_promise_settles st2 s2 (length (promises st)) Hws2)
    as (H1 & H2 & _); auto.
  { rewrite Ho2. apply in_or_app. left. apply in_or_app. right. now left. }
  { rewrite He2. apply in_or_app. left. apply in_or_app. right. now left. }
  destruct (waiting_promise_settles st2 s2 (length (promises st) + 1) Hws2)
    as (H3 & H4 & _); auto.
  { rewrite Ho2. apply in_or_app. right. now left. }
  { rewrite He2. apply in_or_app. right. now left. }
  repeat split; auto. lia.
Qed.

(** *** The idle timer *)

(** X15.  When the idle timer expires the idle-listeners are told, and that is
    all: the socket, the queue and the reconnect timers are as before,
    and the timer is not armed again, so it cannot expire a second time
    until some user activity arms it, for [idleTimeoutDuration]. *)
Theorem idle_expiry_only_notifies (st : State) :
  idleTimeout st <> None ->
  published idle PNothing st (step IdleExpires st)
  /\ ws (step IdleExpires st) = ws st
  /\ messageQueue (step IdleExpires st) = messageQueue st
  /\ timers (step IdleExpires st) = timers st
  /\ idleTimeout (step IdleExpires st) = None
  /\ step IdleExpires (step IdleExpires st) = step IdleExpires st
  /\ idleTimeout (step Activity (step IdleExpires st))
     = Some (idleTimeoutDuration (config st)).
Proof.
  intros Hpending. simpl.
  destruct (idleTimeout st) as [ms | ] eqn:Hi; [ | congruence ].
  destruct (onidle_frame st) as (Hc & Ht & _ & Hq & Hw & Hnone).
  split; [ exact (publish_published idle PNothing (set_idleTimeout None st)) | ].
  rewrite Hnone. unfold resetIdleTimer. simpl. rewrite Hc. auto 10.
Qed.

(** *** createClient, one call after another *)

(** X16.  Once a call of createClient has run to its end, whether straight
    through or after waiting for the token, a later call, made in the
    state that call has left, returns the client it built and changes
    nothing: no listener, no timer, no fetch, no socket, whatever
    configuration it is given.  (As nothing changes, so does every call
    after it, as long as no call that was already waiting for the token
    resumes in between.) *)
Theorem createClient_singleton_after_completion
        (c1 c2 : WebSocketClientConfig) (w w1 : World) (handle : nat) :
  (createClient c1 w = (w1, Returned handle) ->
   createClient c2 w1 = (w1, Returned handle))
  /\ (forall fetched,
         createClient_resume c1 fetched w = (w1, handle) ->
         createClient c2 w1 = (w1, Returned handle)).
Proof.
  split.
  - apply createClient_after_completion.
  - intros fetched H. unfold createClient_resume, createClient_finish in H.
    injection H as <- <-. reflexivity.
Qed.

(** X17.  With a token in the store and no client yet, createClient does not
    wait and does not fetch: it registers the three activity listeners,
    arms the idle timer and returns a new client on the queue of the
    store.  With [autoConnect: false] that client has no socket; otherwise
    it is Connecting to [url?token=<encoded token>]. *)
Theorem createClient_with_token
        (cfg : WebSocketClientConfig) (w : World) (tok : string) :
  instance w = None ->
  token_store w = Some tok ->
  tok <> EmptyString ->
  exists w1 st,
    createClient cfg w = (w1, Returned (length (clients w)))
    /\ instance w1 = Some (length (clients w))
    /\ clients w1 = clients w ++ [st]
    /\ host_log w1
       = host_log w ++ [AddEventListener "mousemove";
                        AddEventListener "keydown";
                        AddEventListener "mousedown";
                        IdleTimerSet (idleTimeoutDuration cfg)]
    /\ config st = cfg
    /\ messageQueue st = queue_store w
    /\ match autoConnect cfg with
       | Some false => getStatus st = DISCONNECTED /\ trace st = []
       | _ =>
           getStatus st = CONNECTING
           /\ trace st
              = [NewWebSocket
                   (url cfg ++ "?token=" ++ encodeURIComponent tok)%string]
       end.
Proof.
  intros Hi Ht Hne. unfold createClient. rewrite Hi. simpl. rewrite Ht.
  assert (Hm : token_missing (Some tok) = false).
  { simpl. destruct tok; [ contradiction | reflexivity ]. }
  rewrite Hm. unfold createClient_finish. simpl.
  eexists. eexists. split; [ reflexivity | ]. simpl.
  repeat split; destruct (autoConnect cfg) as [[ | ] | ]; simpl; auto;
    rewrite ?Ht; auto.
Qed.

(** X18.  With no token in the store (none, or the empty string) and no
    client yet, createClient registers the activity listeners, arms the
    idle timer, asks for a token and waits, having built nothing.  When
    it goes on with the token that was fetched, it stores that token and
    builds the client, which connects with that token unless
    [autoConnect] is false. *)
Theorem createClient_without_token
        (cfg : WebSocketClientConfig) (w : World) (fetched : string) :
  instance w = None ->
  token_store w = None \/ token_store w = Some EmptyString ->
  snd (createClient cfg w) = AwaitingToken cfg
  /\ instance (fst (createClient cfg w)) = None
  /\ clients (fst (createClient cfg w)) = clients w
  /\ host_log (fst (createClient cfg w))
     = host_log w ++ [AddEventListener "mousemove";
                      AddEventListener "keydown";
                      AddEventListener "mousedown";
                      IdleTimerSet (idleTimeoutDuration cfg);
                      FetchToken]
  /\ token_store (fst (createClient_resume cfg fetched (fst (createClient cfg w))))
     = Some fetched
  /\ exists st,
      clients (fst (createClient_resume cfg fetched (fst (createClient cfg w))))
      = clients w ++ [st]
      /\ match autoConnect cfg with
         | Some false => getStatus st = DISCONNECTED /\ trace st = []
         | _ =>
             getStatus st = CONNECTING
             /\ trace st
                = [NewWebSocket
                     (url cfg ++ "?token=" ++ encodeURIComponent fetched)%string]
         end.
Proof.
  intros Hi Ht. unfold createClient. rewrite Hi. simpl.
  assert (Hm : token_missing (token_store w) = true)
    by (destruct Ht as [-> | ->]; reflexivity).
  rewrite Hm. simpl. rewrite <- app_assoc. simpl.
  repeat split.
  eexists. split; [ reflexivity | ].
  destruct (autoConnect cfg) as [[ | ] | ]; simpl; auto.
Qed.

End Client.

(** ** The client on the concrete host *)

(** The schedule of the default configuration. *)
Lemma backoff_schedule_witness :
  nth_error (reconnectTimeouts default_config) 3
  = Some (Finite (2 ^ Z.of_nat 3 * 1000))
  /\ nth_error (reconnectTimeouts patient_config) 1020 = Some Infinity
  /\ reconnectTimeouts default_config
     = [Finite 1000; Finite 2000; Finite 4000; Finite 8000; Finite 16000].
Proof.
  split; [ | split ].
  - apply (proj1 (proj2 (backoff_schedule default_config)));
      vm_compute; lia.
  - apply (proj1 (proj2 (proj2 (backoff_schedule patient_config))));
      vm_compute; lia.
  - apply (proj2 (proj2 (proj2 (proj2 (proj2 (backoff_schedule default_config)))))).
    reflexivity.
Defined.

(** C6 as stated fails: with 1100 attempts allowed, index 1015 is within
    the schedule and its entry is not [2^1015 * 1000] but [Infinity]. *)
Lemma backoff_overflows_at_1015 :
  1015 < maxReconnectAttempts patient_config
  /\ nth_error (reconnectTimeouts patient_config) 1015 = Some Infinity
  /\ nth_error (reconnectTimeouts patient_config) 1015
     <> Some (Finite (2 ^ Z.of_nat 1015 * 1000)).
Proof.
  assert (H : nth_error (reconnectTimeouts patient_config) 1015 = Some Infinity).
  { rewrite reconnectTimeouts_nth by (vm_compute; lia).
    now rewrite backoff_overflow. }
  split; [ vm_compute; lia | ].
  split; [ exact H | ].
  rewrite H. discriminate.
Qed.

(** Eleven messages sent while the socket is still connecting. *)
Lemma outbound_queue_bound_witness :
  exists st',
    send_all render roomy eleven_messages (client_with_socket WS_CONNECTING [])
    = Ok st'
    /\ messageQueue st' = tl eleven_messages
    /\ length (messageQueue st') = 10.
Proof.
  apply (proj2 (proj2 (outbound_queue_bound render roomy)));
    vm_compute; reflexivity.
Defined.







(** Listener 1 throws on the parsed value [true]: it is called again,
    with the wrapper, and so is listener 2, which never sees the parsed
    value. *)
Lemma throwing_listener_gets_the_wrapper :
  trace (onmessage parse_literal (choking_on_true 1) (Text "true")
                   (onMessage 2 (onMessage 1 (client_with_socket WS_OPEN []))))
  = [Notify message 1 (PValue (JBool true));
     Notify message 1 (PValue (wrapper (Text "true")));
     Notify message 2 (PValue (wrapper (Text "true")))]
  /\ onmessage_throws parse_literal (choking_on_true 1) (Text "true")
                      (onMessage 2 (onMessage 1 (client_with_socket WS_OPEN [])))
     = false.
Proof. vm_compute. split; reflexivity. Qed.

(** Listener 1 throws whatever it is given: the exception thrown on the
    wrapper leaves the handler, and listener 2 is not called at all. *)
Lemma throwing_listener_fault_escapes :
  trace (onmessage parse_literal (always_choking 1) (Text "true")
                   (onMessage 2 (onMessage 1 (client_with_socket WS_OPEN []))))
  = [Notify message 1 (PValue (JBool true));
     Notify message 1 (PValue (wrapper (Text "true")))]
  /\ onmessage_throws parse_literal (always_choking 1) (Text "true")
                      (onMessage 2 (onMessage 1 (client_with_socket WS_OPEN [])))
     = true.
Proof. vm_compute. split; reflexivity. Qed.



(** The same when listener 2 cancels listener 1, which has been called
    already: listener 3 is not called. *)
Lemma unsubscribing_an_earlier_listener_skips_too :
  called (forEach (cancelling message 2 1) message (PValue JNull)
                  (mkListeners [1; 2; 3] [] [] [] []))
  = [1; 2].
Proof. vm_compute. reflexivity. Qed.

(** C9 as stated fails: [isReady] is called before [connect]; the
    socket then built reaches Connected and the promise is still
    pending. *)
Lemma isReady_before_connect_stays_pending :
  getStatus
    (dispatch_open render roomy inert
       (connect encode_plain
          (snd (isReady (initial_state default_config (Some "t0"%string) [])))))
  = CONNECTED
  /\ nth_error
       (promises
          (dispatch_open render roomy inert
             (connect encode_plain
                (snd (isReady (initial_state default_config (Some "t0"%string) []))))))
       (fst (isReady (initial_state default_config (Some "t0"%string) [])))
     = Some Pending.
Proof. vm_compute. split; reflexivity. Qed.

(** ** Further examples on the concrete host *)

(** [connect] on a Connecting client, and on a client without socket. *)
Lemma connect_once_witness :
  connect encode_plain (client_with_socket WS_CONNECTING [])
  = client_with_socket WS_CONNECTING []
  /\ getStatus (connect encode_plain
                        (initial_state default_config (Some "t0"%string) []))
     = CONNECTING.
Proof.
  split.
  - apply (proj1 (connect_once encode_plain (client_with_socket WS_CONNECTING []))).
    left. reflexivity.
  - refine (proj1 (proj1 (proj2 (connect_once
                                   encode_plain
                                   (initial_state default_config
                                                  (Some "t0"%string) [])))
                         _)).
    left. reflexivity.
Defined.

(** [disconnect] on a Connected client, then [connect] or [send]. *)
Lemma disconnect_then_connect_or_send_witness :
  getStatus (disconnect (client_with_socket WS_OPEN [])) = CLOSING
  /\ connect encode_plain (disconnect (client_with_socket WS_OPEN []))
     = disconnect (client_with_socket WS_OPEN [])
  /\ exists st',
      send render roomy (JNum 1) (disconnect (client_with_socket WS_OPEN []))
      = Ok st'
      /\ trace st' = trace (disconnect (client_with_socket WS_OPEN []))
      /\ messageQueue st'
         = (let q := messageQueue (client_with_socket WS_OPEN []) ++ [JNum 1] in
            if maxQueueSize (client_with_socket WS_OPEN []) <? length q
            then tl q else q).
Proof.
  apply (disconnect_then_connect_or_send render encode_plain roomy).
  right. left. reflexivity.
Defined.

(** Listener 7 subscribes to messages and unsubscribes again. *)
Lemma subscribe_then_unsubscribe_witness :
  step parse_literal render encode_plain roomy inert (CallUnsubscribe message 7)
       (step parse_literal render encode_plain roomy inert (CallOn message 7)
             (client_with_socket WS_OPEN []))
  = client_with_socket WS_OPEN [].
Proof.
  apply (subscribe_then_unsubscribe parse_literal render encode_plain roomy inert).
  simpl. tauto.
Defined.


(** Listener 9 subscribes after listener 7 and is called after it. *)
Lemma listeners_called_in_registration_order_witness :
  trace (publish inert message (PValue JNull)
                 (add_listener message 9
                               (onMessage 7 (client_with_socket WS_OPEN []))))
  = trace (onMessage 7 (client_with_socket WS_OPEN []))
    ++ notifications message (PValue JNull)
         (registry message (listeners (onMessage 7 (client_with_socket WS_OPEN [])))
          ++ [9]).
Proof.
  apply (listeners_called_in_registration_order inert).
  intros l' _. reflexivity.
Defined.

(** Three messages sent while connecting are written when the socket
    opens. *)
Lemma queued_messages_flushed_on_open_witness :
  exists st1,
    send_all render roomy three_messages (client_with_socket WS_CONNECTING [])
    = Ok st1
    /\ messageQueue (dispatch_open render roomy inert st1) = []
    /\ getStatus (dispatch_open render roomy inert st1) = CONNECTED
    /\ exists called,
        trace (dispatch_open render roomy inert st1)
        = trace (client_with_socket WS_CONNECTING [])
          ++ map (frame_of render)
                 (skipn (length three_messages
                         - maxQueueSize (client_with_socket WS_CONNECTING []))
                        three_messages)
          ++ notifications open PNothing called.
Proof.
  apply (queued_messages_flushed_on_open render roomy inert).
  - intros history frame. reflexivity.
  - reflexivity.
  - reflexivity.
  - reflexivity.
Defined.

(** [subscribe("news")] on a Connected client. *)
Lemma subscribe_sends_intent_witness :
  exists st1,
    subscribe render roomy "news" (client_with_socket WS_OPEN []) = Ok st1
    /\ trace st1
       = trace (client_with_socket WS_OPEN [])
         ++ [WsSend (render (subscribe_intent "news"))]
    /\ messageQueue st1 = messageQueue (client_with_socket WS_OPEN []).
Proof.
  apply (proj1 (subscribe_sends_intent render roomy inert "news"
                                       (client_with_socket WS_OPEN []))).
  reflexivity.
Defined.

(** A queue headed by [null] on an open socket. *)
Lemma unwritable_head_blocks_queue_witness :
  drain render roomy (client_with_socket WS_OPEN [JNull; JStr "behind"])
  = (emit [ConsoleError] (client_with_socket WS_OPEN [JNull; JStr "behind"]),
     Break)
  /\ messageQueue (onopen render roomy inert
                          (client_with_socket WS_OPEN [JNull; JStr "behind"]))
     = [JNull; JStr "behind"].
Proof.
  apply (unwritable_head_blocks_queue render roomy inert).
  - reflexivity.
  - right. reflexivity.
Defined.

(** Twelve sends, an open and a close. *)
Lemma queue_bound_is_invariant_witness :
  length (messageQueue
            (run parse_literal render encode_plain roomy inert
                 (map CallSend (JNull :: eleven_messages)
                  ++ [SocketOpens; SocketCloses 0 1006])
                 (client_with_socket WS_CONNECTING [])))
  <= maxQueueSize (client_with_socket WS_CONNECTING []).
Proof.
  apply (queue_bound_is_invariant parse_literal render encode_plain roomy inert).
  vm_compute. lia.
Defined.

(** A promise resolved at once stays resolved through an error, another
    [isReady] and an open. *)
Lemma settled_promise_never_changes_witness :
  settled (promises
             (run parse_literal render encode_plain roomy inert
                  [SocketErrors; CallIsReady; SocketOpens]
                  (snd (isReady (client_with_socket WS_OPEN [])))))
          0 Fulfilled.
Proof.
  apply (settled_promise_never_changes
           parse_literal render encode_plain roomy inert).
  unfold settled. split; [ reflexivity | discriminate ].
Defined.

(** An abnormal closure of an open socket at attempt 0, and its timer. *)
Lemma scheduled_reconnect_builds_next_attempt_witness :
  getStatus (fire_timer encode_plain
                        (length (timers (client_with_socket WS_OPEN [])))
                        (onclose inert 0 1006 (client_with_socket WS_OPEN [])))
  = CONNECTING
  /\ option_map attempt_of
       (ws (fire_timer encode_plain
                       (length (timers (client_with_socket WS_OPEN [])))
                       (onclose inert 0 1006 (client_with_socket WS_OPEN []))))
     = Some (0 + 1)
  /\ timers (fire_timer encode_plain
                        (length (timers (client_with_socket WS_OPEN [])))
                        (onclose inert 0 1006 (client_with_socket WS_OPEN [])))
     = timers (client_with_socket WS_OPEN [])
  /\ messageQueue
       (fire_timer encode_plain
                   (length (timers (client_with_socket WS_OPEN [])))
                   (onclose inert 0 1006 (client_with_socket WS_OPEN [])))
     = messageQueue (client_with_socket WS_OPEN [])
  /\ promises
       (fire_timer encode_plain
                   (length (timers (client_with_socket WS_OPEN [])))
                   (onclose inert 0 1006 (client_with_socket WS_OPEN [])))
     = promises (client_with_socket WS_OPEN []).
Proof.
  apply (scheduled_reconnect_builds_next_attempt encode_plain inert).
  - discriminate.
  - vm_compute. lia.
  - discriminate.
  - discriminate.
Defined.

(** Two [isReady] calls while connecting: the promises differ. *)
Lemma isReady_twice_witness :
  fst (isReady (client_with_socket WS_CONNECTING []))
  <> fst (isReady (snd (isReady (client_with_socket WS_CONNECTING [])))).
Proof.
  refine (proj1 (isReady_twice render roomy inert
                               (client_with_socket WS_CONNECTING []) _)).
  reflexivity.
Defined.

(** The idle timer of a fresh client expires. *)
Lemma idle_expiry_only_notifies_witness :
  idleTimeout (step parse_literal render encode_plain roomy inert IdleExpires
                    (client_with_socket WS_OPEN []))
  = None.
Proof.
  refine (proj1 (proj2 (proj2 (proj2 (proj2
            (idle_expiry_only_notifies parse_literal render encode_plain roomy
                                       inert
                                       (client_with_socket WS_OPEN []) _)))))).
  discriminate.
Defined.

(** A second createClient call after the first has returned. *)
Lemma createClient_singleton_after_completion_witness :
  createClient encode_plain
               (mkConfig "wss://other.test/ws" (Some 3) None None (Some false))
               (fst (createClient encode_plain default_config
                                  (mkWorld None (Some "t0"%string) [] [] [])))
  = (fst (createClient encode_plain default_config
                       (mkWorld None (Some "t0"%string) [] [] [])),
     Returned 0).
Proof.
  apply (proj1 (createClient_singleton_after_completion
                  encode_plain default_config
                  (mkConfig "wss://other.test/ws" (Some 3) None None (Some false))
                  (mkWorld None (Some "t0"%string) [] [] [])
                  (fst (createClient encode_plain default_config
                                     (mkWorld None (Some "t0"%string) [] [] [])))
                  0)).
  vm_compute. reflexivity.
Defined.

(** createClient with the token [t0] in the store. *)
Lemma createClient_with_token_witness :
  exists w1 st,
    createClient encode_plain default_config
                 (mkWorld None (Some "t0"%string) [] [] [])
    = (w1, Returned (length (clients (mkWorld None (Some "t0"%string) [] [] []))))
    /\ instance w1
       = Some (length (clients (mkWorld None (Some "t0"%string) [] [] [])))
    /\ clients w1 = clients (mkWorld None (Some "t0"%string) [] [] []) ++ [st]
    /\ host_log w1
       = host_log (mkWorld None (Some "t0"%string) [] [] [])
         ++ [AddEventListener "mousemove";
             AddEventListener "keydown";
             AddEventListener "mousedown";
             IdleTimerSet (idleTimeoutDuration default_config)]
    /\ config st = default_config
    /\ messageQueue st = queue_store (mkWorld None (Some "t0"%string) [] [] [])
    /\ match autoConnect default_config with
       | Some false => getStatus st = DISCONNECTED /\ trace st = []
       | _ =>
           getStatus st = CONNECTING
           /\ trace st
              = [NewWebSocket
                   (url default_config ++ "?token=" ++ encode_plain "t0")%string]
       end.
Proof.
  apply (createClient_with_token encode_plain default_config
                                 (mkWorld None (Some "t0"%string) [] [] [])
                                 "t0").
  - reflexivity.
  - reflexivity.
  - discriminate.
Defined.

(** createClient with an empty store. *)
Lemma createClient_without_token_witness :
  snd (createClient encode_plain default_config (mkWorld None None [] [] []))
  = AwaitingToken default_config.
Proof.
  refine (proj1 (createClient_without_token
                   encode_plain default_config (mkWorld None None [] [] [])
                   "t1" _ _)).
  - reflexivity.
  - left. reflexivity.
Defined.
